(** * Picture Book Forest: procedural scenery, movement and sign completion

    A shallow embedding of the page component (the world page of the
    repository) and the properties of its specification.

    Number model.  A JavaScript number is an IEEE 754 binary64 value.  The
    noise function, the point-in-path test, the rounding to two decimals and
    the block generator are embedded over binary64 in [Module Double]: what
    they return depends on the rounding of the arithmetic.  [Math.sin] and
    [Math.cos], which ECMAScript leaves to the implementation, are a
    parameter there.  The border generator, the stepping stones, the avatar
    and the sign layout are stated over the reals, with [Math.floor],
    [Math.round], [Math.min] and [Math.max] the exact functions; what is
    proved of them are bounds with a margin and equations between small
    integers.  The loop counters of the border generator are integers. *)

From Stdlib Require Import Reals Lra Lia ZArith List Bool String Ascii NArith.
From Stdlib Require Import Zfloor DecimalString.
From Stdlib Require Floats.
Import ListNotations.

Local Open Scope R_scope.

(** * Model *)

(** ** Numbers *)

Module Math.

Definition floor (x : R) : R := IZR (Zfloor x).

(** [Math.round] rounds to the nearest integer, halves towards +infinity. *)
Definition round (x : R) : R := IZR (Zfloor (x + / 2)).

Definition max (a b : R) : R := Rmax a b.
Definition min (a b : R) : R := Rmin a b.

End Math.

(** ** Configuration types *)

Definition WORLD_WIDTH : Z := 4000.
Definition WORLD_HEIGHT : Z := 4300.

Record Path := mkPath {
  p_length : R;
  p_width : R;
  p_top : R;
  p_left : R;
  p_angle : R   (* in degrees *)
}.

Record TreeBlock := mkTreeBlock {
  b_length : R;
  b_width : R;
  b_density : R;
  b_top : R;
  b_left : R
}.

Record point := mkPoint { px : R; py : R }.

(** ** Noise, in exact arithmetic

    The value of [seededRandom] over the reals.  The jitter of the border
    frame and the sizes of the stepping stones are bounded through it;
    [Double.seededRandom] below is the function on binary64. *)

Definition seededRandom (seed : R) : R :=
  let x := sin seed * 10000 in
  x - Math.floor x.

(** ** Containment, in exact geometry

    The specification's wording of containment: the local frame is the
    counter-clockwise rotation of a vector by [theta] radians, used at the
    negated angle, and the point is contained when its local coordinates
    lie in the closed rectangle.  [Double.isPointInPath] below is the
    function of the source. *)
Definition rotate (theta : R) (v : R * R) : R * R :=
  (fst v * cos theta - snd v * sin theta,
   fst v * sin theta + snd v * cos theta).

Definition localCoords (x y : R) (path : Path) : R * R :=
  rotate (- (p_angle path * PI / 180)) (x - p_left path, y - p_top path).

Definition containsPoint_spec (x y : R) (path : Path) : Prop :=
  let '(u, v) := localCoords x y path in
  0 <= u <= p_length path /\ Rabs v <= p_width path / 2.

(** ** Loops

    [for (let x = x0; cond x; x += step) body] over a state [S], for a loop
    variable of type [N] (a binary64 number in the block generator, an
    integer in the border generator).  The recursion runs on a fuel; [None]
    means the fuel ran out before the condition failed. *)

Section ForLoop.
Context {N S : Type}.
Variable plus : N -> N -> N.

Fixpoint for_loop (fuel : nat) (cond : N -> bool) (step : N)
    (body : N -> S -> option S) (x : N) (s : S) : option S :=
  if cond x then
    match fuel with
    | O => None
    | Datatypes.S fuel' =>
        match body x s with
        | Some s' => for_loop fuel' cond step body (plus x step) s'
        | None => None
        end
    end
  else Some s.

End ForLoop.

(** ** Rounding to two decimals, in exact arithmetic

    [Math.round(v * 100) / 100] over the reals, for the border frame and the
    stepping stones; [Double.round2] below is the function on binary64. *)

Definition round2 (v : R) : R := Math.round (v * 100) / 100.

(** ** Binary64 numbers

    The functions of the scenery code whose results depend on the rounding
    of JavaScript numbers are embedded over IEEE 754 binary64 values with
    round-to-nearest-even arithmetic, which is what a JavaScript number is.
    A decimal literal denotes the nearest binary64 value, as it does in the
    source. *)

Module Double.
Import PrimFloat.
#[local] Set Warnings "-inexact-float".
Local Open Scope float_scope.

(** [Math.PI]. *)
Definition PI : float := 0x1.921fb54442d18p+1.

(** [Math.floor].  Below [2^52] in magnitude, adding and subtracting [2^52]
    rounds to an integer, which is then corrected downwards; from [2^52] on
    every value is an integer.  Zeros, infinities and NaN are returned as
    they are. *)
Definition floor (x : float) : float :=
  if x =? 0 then x
  else if abs x <? 0x1p52 then
    let r := if 0 <? x then (x + 0x1p52) - 0x1p52 else (x - 0x1p52) + 0x1p52 in
    if x <? r then r - 1 else r
  else x.

(** [Math.round]: the nearest integer, a tie going towards +infinity; the
    result is [-0] for a negative argument that rounds to zero. *)
Definition round (x : float) : float :=
  let f := floor x in
  let r := if 0.5 <=? x - f then f + 1 else f in
  if (x <? 0) && (r =? 0) then -0 else r.

(** [Math.sin] and [Math.cos] are implementation-approximated in
    ECMAScript: the model takes them as a parameter. *)
Record Engine := mkEngine {
  Math_sin : float -> float;
  Math_cos : float -> float
}.

Record Path := mkPath {
  p_length : float;
  p_width : float;
  p_top : float;
  p_left : float;
  p_angle : float   (* in degrees *)
}.

Record TreeBlock := mkTreeBlock {
  b_length : float;
  b_width : float;
  b_density : float;
  b_top : float;
  b_left : float
}.

Record point := mkPoint { px : float; py : float }.

Definition seededRandom (m : Engine) (seed : float) : float :=
  let x := Math_sin m seed * 10000 in
  x - floor x.

(** The point in the path's frame, as the source computes it. *)
Definition rotated (m : Engine) (x y : float) (path : Path) : float * float :=
  let angleRad := (p_angle path * PI) / 180 in
  let cos := Math_cos m angleRad in
  let sin := Math_sin m angleRad in
  let dx := x - p_left path in
  let dy := y - p_top path in
  (dx * cos + dy * sin, - dx * sin + dy * cos).

Definition isPointInPath (m : Engine) (x y : float) (path : Path) : bool :=
  let '(rotatedX, rotatedY) := rotated m x y path in
  (0 <=? rotatedX) && (rotatedX <=? p_length path)
  && (abs rotatedY <=? p_width path / 2).

Definition round2 (v : float) : float := round (v * 100) / 100.

Record treeState := mkTreeState {
  trees : list point;
  treeIndex : float
}.

Definition inBlock (block : TreeBlock) (treeX treeY : float) : bool :=
  (b_left block <=? treeX)
  && (treeX <=? b_left block + b_width block)
  && (b_top block <=? treeY)
  && (treeY <=? b_top block + b_length block).

(** The body of the inner loop at grid position [(x, y)]. *)
Definition treeCell (m : Engine) (block : TreeBlock) (paths : list Path)
    (spacing blockSeed x y : float) (st : treeState) : treeState :=
  let seedX := blockSeed + treeIndex st * 11 in
  let seedY := blockSeed + treeIndex st * 13 + 1000 in
  let offsetX := (seededRandom m seedX - 0.5) * spacing * 0.4 in
  let offsetY := (seededRandom m seedY - 0.5) * spacing * 0.4 in
  let treeX := round2 (x + offsetX) in
  let treeY := round2 (y + offsetY) in
  let treeIndex' := treeIndex st + 1 in
  if inBlock block treeX treeY then
    let isInPath := existsb (isPointInPath m treeX treeY) paths in
    if negb isInPath
    then mkTreeState (trees st ++ [mkPoint treeX treeY]) treeIndex'
    else mkTreeState (trees st) treeIndex'
  else mkTreeState (trees st) treeIndex'.

Definition blockSeed (block : TreeBlock) : float :=
  b_left block * 1000 + b_top block * 100 + b_width block + b_length block.

(** The generator.  Each of its loops is given [fuel] iterations; [None]
    means that a loop had not reached its exit by then. *)
Definition generateTreeBlock (m : Engine) (fuel : nat) (block : TreeBlock)
    (paths : list Path) : option (list point) :=
  let spacing := 100 / b_density block in
  option_map trees
    (for_loop add fuel
       (fun x => x <? b_left block + b_width block) spacing
       (fun x st =>
          for_loop add fuel
            (fun y => y <? b_top block + b_length block) spacing
            (fun y st' =>
               Some (treeCell m block paths spacing (blockSeed block) x y st'))
            (b_top block) st)
       (b_left block) (mkTreeState [] 0)).

(** The call returns [ts] when some number of iterations is enough. *)
Definition returns (m : Engine) (block : TreeBlock) (paths : list Path)
    (ts : list point) : Prop :=
  exists fuel, generateTreeBlock m fuel block paths = Some ts.

(** A tree the paths leave standing. *)
Definition offPaths (m : Engine) (paths : list Path) (t : point) : bool :=
  negb (existsb (isPointInPath m (px t) (py t)) paths).

(** The run with paths and the run without visit the same cells: the trees
    of the first are those of the second that stand off the paths. *)
Definition filtered (m : Engine) (paths : list Path) (s0 s : treeState)
    : Prop :=
  treeIndex s = treeIndex s0
  /\ trees s = filter (offPaths m paths) (trees s0).

(** *** A reference engine

    The correctly rounded sines and cosines of the arguments that the
    examples below evaluate: the noise seeds, and the angles 0 and
    [90 * PI / 180]. *)

Definition tabulated (table : list (float * float)) (x : float) : float :=
  match find (fun e => fst e =? x) table with
  | Some e => snd e
  | None => nan
  end.

Definition noiseSines : list (float * float) :=
  [ (1765150, 0x1.a256e7050ee7dp-1);
    (1766150, -0x1.1a3b67920a1afp-6);
    (1765161, 0x1.29096af2ae395p-1);
    (1766163, -0x1.be31b18bff5dcp-2);
    (0x1.24c090aa401d8p+55, -0x1.507f1df7a0390p-1);
    (0x1.24c090aa40255p+55, 0x1.03b2bf9b00d8cp-2);
    (-1e-21, -1e-21) ].

Definition angleSines : list (float * float) :=
  [ (0, 0); (0x1.921fb54442d18p+0, 1) ].

Definition angleCosines : list (float * float) :=
  [ (0, 1); (0x1.921fb54442d18p+0, 0x1.1a62633145c07p-54) ].

Definition engineOf (noise : list (float * float)) : Engine :=
  mkEngine (tabulated (angleSines ++ noise)) (tabulated angleCosines).

Definition reference : Engine := engineOf noiseSines.

(** The tables that differ from [table] by at most one unit in the last
    place in each value. *)
Fixpoint roundings (table : list (float * float))
    : list (list (float * float)) :=
  match table with
  | [] => [[]]
  | (a, v) :: rest =>
      flat_map
        (fun t => [(a, next_down v) :: t; (a, v) :: t; (a, next_up v) :: t])
        (roundings rest)
  end.

(** *** Examples *)



(** A block of two grid cells and a crossing path whose rectangle,
    [1765 <= x <= 1815] by [0 <= y <= 100], covers the block's. *)
Definition hedge : TreeBlock := mkTreeBlock 100 50 2 0 1765.
Definition crossing : Path := mkPath 100 50 0 1790 90.
Definition wideCrossing : Path := mkPath 100 51 0 1790 90.

(** The two grid cells of [hedge] after jitter and rounding. *)
Definition nearTree : point := mkPoint 1768.85 4.78.
Definition edgeTree : point := mkPoint 1765 52.71.

(** A value whose hundredfold lies above [2^51], where binary64 numbers are
    a half apart, and a one-cell block placed there. *)
Definition far : float := 41201210381831.875.
Definition farBlock : TreeBlock := mkTreeBlock 0.015625 0.015625 6400 0 far.

(** Blocks whose spacing of 1 is absorbed by the left edge or by the top
    edge, a block without length and a block without width. *)
Definition absorbed : TreeBlock := mkTreeBlock 0 10 100 0 1e16.
Definition absorbedRows : TreeBlock := mkTreeBlock 10 100 100 1e16 0.
Definition flat : TreeBlock := mkTreeBlock 0 100 1 0 0.
Definition thin : TreeBlock := mkTreeBlock 100 0 1 0 0.

(** A seed just below zero, and a block with that seed: its [top * 100] is
    the seed, and its width and length are absorbed by it. *)
Definition tiny : float := -1e-21.
Definition speck : TreeBlock := mkTreeBlock 1e-38 1e-38 1 (-1e-23) 0.

End Double.

(** ** Border generator

    All loop variables of the border generator are integers (the layer
    advances by [TREE_SPACING / 2 = 125]), so its loops run over [Z].  A
    border cell is what one loop body sees: the side being filled, the
    layer, the position along the edge and the running tree counter. *)

Inductive Side := Top | Bottom | Left | Right.

Record borderCell := mkCell {
  c_side : Side;
  c_layer : Z;
  c_along : Z;
  c_counter : Z
}.

Module Border.

Definition TREE_SPACING : Z := 250.
Definition BORDER_DEPTH : Z := 800.
Definition RANDOM_OFFSET : R := 200.
Definition BOTTOM_RAISE : Z := 200.
Definition borderSeed : Z := 12345.

Definition rand (range seed : R) : R := (seededRandom seed - 0.5) * range.

(** Coordinates before jitter and rounding, as each loop body writes
    them. *)
Definition nominalX (c : borderCell) : Z :=
  match c_side c with
  | Top | Bottom => c_along c
  | Left => - c_layer c
  | Right => WORLD_WIDTH + c_layer c
  end.

Definition nominalY (c : borderCell) : Z :=
  match c_side c with
  | Top => - c_layer c
  | Bottom => WORLD_HEIGHT + c_layer c - BOTTOM_RAISE
  | Left | Right => c_along c
  end.

Definition rangeX (c : borderCell) : R :=
  match c_side c with
  | Top | Bottom => RANDOM_OFFSET
  | Left | Right => RANDOM_OFFSET / 2
  end.

Definition rangeY (c : borderCell) : R :=
  match c_side c with
  | Top | Bottom => RANDOM_OFFSET / 2
  | Left | Right => RANDOM_OFFSET
  end.

(** The point a loop body pushes. *)
Definition borderTree (c : borderCell) : point :=
  let seed1 := IZR (borderSeed + c_counter c * 17) in
  let seed2 := IZR (borderSeed + c_counter c * 19 + 5000) in
  mkPoint (round2 (IZR (nominalX c) + rand (rangeX c) seed1))
          (round2 (IZR (nominalY c) + rand (rangeY c) seed2)).

Definition loopFuelZ (a b step : Z) : nat := Z.to_nat ((b - a) / step + 1).

Section Generator.
Context {A : Type}.
Variable emit : borderCell -> A.

Record state := mkState {
  borderTrees : list A;
  treeCounter : Z
}.

Definition push (side : Side) (layer along : Z) (st : state) : option state :=
  Some (mkState
          (borderTrees st ++ [emit (mkCell side layer along (treeCounter st))])
          (treeCounter st + 1)).

(** One row: [for (v = -TREE_SPACING; v <= extent + TREE_SPACING;
    v += TREE_SPACING)]. *)
Definition row (side : Side) (extent layer : Z) (st : state) : option state :=
  for_loop Z.add (loopFuelZ (- TREE_SPACING) (extent + TREE_SPACING) TREE_SPACING)
    (fun v => v <=? extent + TREE_SPACING)%Z TREE_SPACING
    (fun v st' => push side layer v st')
    (- TREE_SPACING)%Z st.

Definition layerBody (layer : Z) (st : state) : option state :=
  match row Top WORLD_WIDTH layer st with
  | Some st1 =>
      match row Bottom WORLD_WIDTH layer st1 with
      | Some st2 =>
          match row Left WORLD_HEIGHT layer st2 with
          | Some st3 => row Right WORLD_HEIGHT layer st3
          | None => None
          end
      | None => None
      end
  | None => None
  end.

Definition run : option (list A) :=
  option_map borderTrees
    (for_loop Z.add (loopFuelZ 0 BORDER_DEPTH (TREE_SPACING / 2))
       (fun layer => layer <? BORDER_DEPTH)%Z (TREE_SPACING / 2)%Z
       layerBody 0%Z (mkState [] 0)).

End Generator.

End Border.

Definition generateBorderTrees : option (list point) :=
  Border.run Border.borderTree.

(** The cells visited by the border loops, in order. *)
Definition borderCells : list borderCell := Eval vm_compute in
  match Border.run (fun c => c) with Some cs => cs | None => [] end.

(** The same cells in closed form: seven layers 0, 125, ..., 750, each a top
    and a bottom row of 19 positions and a left and a right row of 20
    positions, 250 apart from -250, numbered consecutively. *)
Definition gridRow (side : Side) (layer : Z) (n : nat) (first : Z)
    : list borderCell :=
  map (fun j => mkCell side layer (-250 + 250 * Z.of_nat j)
                  (first + Z.of_nat j))
      (seq 0 n).

Definition gridLayer (k : nat) : list borderCell :=
  let layer := (125 * Z.of_nat k)%Z in
  let first := (78 * Z.of_nat k)%Z in
  gridRow Top layer 19 first
  ++ gridRow Bottom layer 19 (first + 19)
  ++ gridRow Left layer 20 (first + 38)
  ++ gridRow Right layer 20 (first + 58).

Definition borderGrid : list borderCell := flat_map gridLayer (seq 0 7).

(** ** Avatar movement *)

Inductive key := ArrowUp | ArrowDown | ArrowLeft | ArrowRight.

Definition key_eqb (a b : key) : bool :=
  match a, b with
  | ArrowUp, ArrowUp | ArrowDown, ArrowDown
  | ArrowLeft, ArrowLeft | ArrowRight, ArrowRight => true
  | _, _ => false
  end.

(** The set of pressed keys, with its membership test. *)
Definition keySet := list key.
Definition has (keys : keySet) (k : key) : bool := existsb (key_eqb k) keys.

Record position := mkPosition { pos_x : R; pos_y : R }.

Definition SPEED : R := 8.

Definition updatePosition (keysPressed : keySet) (prev : position) : position :=
  let newX := pos_x prev in
  let newY := pos_y prev in
  let newY :=
    if has keysPressed ArrowUp then Math.max 650 (pos_y prev - SPEED) else newY in
  let newY :=
    if has keysPressed ArrowDown
    then Math.min (IZR WORLD_HEIGHT - 200) (pos_y prev + SPEED) else newY in
  let newX :=
    if has keysPressed ArrowLeft then Math.max 550 (pos_x prev - SPEED) else newX in
  let newX :=
    if has keysPressed ArrowRight
    then Math.min (IZR WORLD_WIDTH - 200) (pos_x prev + SPEED) else newX in
  mkPosition newX newY.

Definition inWorldBounds (p : position) : Prop :=
  550 <= pos_x p <= IZR WORLD_WIDTH - 200
  /\ 650 <= pos_y p <= IZR WORLD_HEIGHT - 200.

(** [useState({ x: 850, y: 850 })]. *)
Definition startPosition : position := mkPosition 850 850.

(** ** Strings

    A JavaScript string is a sequence of UTF-16 code units. *)

Local Close Scope R_scope.
Local Open Scope nat_scope.
Local Open Scope list_scope.

Definition jsstring := list N.

(** An ASCII literal as a JavaScript string. *)
Definition lit (s : string) : jsstring :=
  map N_of_ascii (list_ascii_of_string s).

Module Str.

(** WhiteSpace and LineTerminator code units, the ones [trim] strips. *)
Definition isWhiteSpace (c : N) : bool :=
  ((c =? 9) || (c =? 10) || (c =? 11) || (c =? 12) || (c =? 13)
   || (c =? 32) || (c =? 160) || (c =? 5760)
   || ((8192 <=? c) && (c <=? 8202))
   || (c =? 8232) || (c =? 8233) || (c =? 8239) || (c =? 8287)
   || (c =? 12288) || (c =? 65279))%N.

Fixpoint dropWhile (p : N -> bool) (s : jsstring) : jsstring :=
  match s with
  | [] => []
  | c :: s' => if p c then dropWhile p s' else s
  end.

Fixpoint takeWhile (p : N -> bool) (s : jsstring) : jsstring :=
  match s with
  | [] => []
  | c :: s' => if p c then c :: takeWhile p s' else []
  end.

Definition trimStart (s : jsstring) : jsstring := dropWhile isWhiteSpace s.
Definition trimEnd (s : jsstring) : jsstring :=
  rev (dropWhile isWhiteSpace (rev s)).
Definition trim (s : jsstring) : jsstring := trimEnd (trimStart s).

(** A string is truthy, and has positive length, when it is not empty. *)
Definition nonEmpty (s : jsstring) : bool :=
  match s with [] => false | _ :: _ => true end.

(** [s.split('\n')[0]]: the text before the first line feed. *)
Definition firstLine (s : jsstring) : jsstring :=
  takeWhile (fun c => negb (c =? 10)%N) s.

(** [a || b] on an optional string: [undefined] and the empty string are
    falsy. *)
Definition orElse (a : option jsstring) (b : jsstring) : jsstring :=
  match a with
  | Some (c :: s) => c :: s
  | _ => b
  end.

(** [n.toString()] for a non-negative integer. *)
Definition ofNat (n : nat) : jsstring :=
  lit (DecimalString.NilZero.string_of_uint (Nat.to_uint n)).

(** [s.padStart(2, '0')]. *)
Definition padStart2 (s : jsstring) : jsstring :=
  repeat 48%N (2 - List.length s) ++ s.

(** [parts.join(sep)]. *)
Fixpoint join (sep : jsstring) (parts : list jsstring) : jsstring :=
  match parts with
  | [] => []
  | [p] => p
  | p :: rest => p ++ sep ++ join sep rest
  end.

End Str.

(** ** Signs and responses *)

Record TextBox := mkTextBox {
  text : jsstring;
  fontSize : R;
  top : R;
  left : R;
  additionalInfo : option jsstring;
  grading : option (jsstring -> jsstring);
  hasInput : option bool;
  title : option jsstring
}.

Record responseRecord := mkResponse {
  index : nat;
  response : jsstring;
  timestamp : Z
}.

(** [signResponses.find(r => r.index === idx)]: the first record stored for
    the sign. *)
Definition findResponse (signResponses : list responseRecord) (idx : nat)
    : option responseRecord :=
  find (fun r => index r =? idx) signResponses.

(** [response && response.response.trim().length > 0]. *)
Definition answered (signResponses : list responseRecord) (idx : nat) : bool :=
  match findResponse signResponses idx with
  | Some r => Str.nonEmpty (Str.trim (response r))
  | None => false
  end.

Definition includes (l : list nat) (n : nat) : bool := existsb (Nat.eqb n) l.

(** [l.map((tb, idx) => ({ textBox: tb, index: idx }))]. *)
Definition indexed {A} (l : list A) : list (nat * A) :=
  combine (seq 0 (List.length l)) l.

Definition hasGrading (tb : TextBox) : bool :=
  match grading tb with Some _ => true | None => false end.

Definition formatTime (seconds : nat) : jsstring :=
  let mins := seconds / 60 in
  let secs := seconds mod 60 in
  Str.padStart2 (Str.ofNat mins) ++ lit ":" ++ Str.padStart2 (Str.ofNat secs).

(** ** Completion check *)

Module Completion.

Definition agentTaskIndices : list nat := [6; 7].
Definition beansRenameIndex : nat := 1.

Definition textBoxesWithGrading (textBoxes : list TextBox)
    : list (nat * TextBox) :=
  filter (fun it => hasGrading (snd it)) (indexed textBoxes).

Definition agentTaskCompleted (signResponses : list responseRecord) : bool :=
  existsb (answered signResponses) agentTaskIndices.

Record scanState := mkScan {
  missingResponses : list nat;
  gradingResults : list (nat * jsstring)
}.

(** The body of the first [forEach]. *)
Definition scanStep (signResponses : list responseRecord)
    (st : scanState) (it : nat * TextBox) : scanState :=
  let '(idx, textBox) := it in
  if idx =? beansRenameIndex then st
  else if includes agentTaskIndices idx then
    if negb (agentTaskCompleted signResponses)
    then mkScan (missingResponses st ++ [idx]) (gradingResults st)
    else st
  else
    match findResponse signResponses idx with
    | None => mkScan (missingResponses st ++ [idx]) (gradingResults st)
    | Some r =>
        if negb (Str.nonEmpty (Str.trim (response r)))
        then mkScan (missingResponses st ++ [idx]) (gradingResults st)
        else
          match grading textBox with
          | Some grade =>
              mkScan (missingResponses st)
                     (gradingResults st ++ [(idx, grade (response r))])
          | None => st
          end
    end.

Definition scan (textBoxes : list TextBox)
    (signResponses : list responseRecord) : scanState :=
  fold_left (scanStep signResponses) (textBoxesWithGrading textBoxes)
    (mkScan [] []).

Definition taskName (textBox : TextBox) : jsstring :=
  Str.orElse (title textBox) (Str.firstLine (text textBox)).

(** [textBox?.title]. *)
Definition titleOf (textBox : option TextBox) : option jsstring :=
  match textBox with Some tb => title tb | None => None end.

Definition missingTaskNames (textBoxes : list TextBox) (missing : list nat)
    : list jsstring :=
  let agentTasksMissing := filter (includes agentTaskIndices) missing in
  let agentNames :=
    if 0 <? List.length agentTasksMissing then
      let agentTask1 := nth_error textBoxes 6 in
      let agentTask2 := nth_error textBoxes 7 in
      let task1Name := Str.orElse (titleOf agentTask1) (lit "Find an Agent") in
      let task2Name :=
        Str.orElse (titleOf agentTask2) (lit "Already have an agent") in
      [task1Name ++ lit " or " ++ task2Name]
    else [] in
  fold_left
    (fun names idx =>
       if negb (includes agentTaskIndices idx) then
         match nth_error textBoxes idx with
         | Some textBox => names ++ [taskName textBox]
         | None => names
         end
       else names)
    missing agentNames.

(** The body of the second [forEach], run on success. *)
Definition collectStep (signResponses : list responseRecord)
    (all : list (jsstring * jsstring)) (it : nat * TextBox)
    : list (jsstring * jsstring) :=
  let '(idx, textBox) := it in
  if idx =? beansRenameIndex then all
  else if includes agentTaskIndices idx then
    match findResponse signResponses idx with
    | Some r =>
        if Str.nonEmpty (Str.trim (response r))
        then all ++ [(taskName textBox, response r)]
        else all
    | None => all
    end
  else
    match findResponse signResponses idx with
    | Some r =>
        if Str.nonEmpty (Str.trim (response r))
        then all ++ [(taskName textBox, response r)]
        else all
    | None => all
    end.

Definition allResponses (textBoxes : list TextBox)
    (signResponses : list responseRecord) : list (jsstring * jsstring) :=
  fold_left (collectStep signResponses) (textBoxesWithGrading textBoxes) [].

Inductive outcome :=
| Incomplete (missingTaskNames : list jsstring)
| Complete (timeString : jsstring) (responses : list (jsstring * jsstring)).

Definition check (textBoxes : list TextBox)
    (signResponses : list responseRecord) (elapsedTime : nat) : outcome :=
  let st := scan textBoxes signResponses in
  if 0 <? List.length (missingResponses st)
  then Incomplete (missingTaskNames textBoxes (missingResponses st))
  else Complete (formatTime elapsedTime) (allResponses textBoxes signResponses).

End Completion.

(** ** Feedback message *)

Module Feedback.

Definition nl : jsstring := [10%N].
Definition quote : jsstring := [34%N].
(** U+1F389 as its surrogate pair. *)
Definition partyPopper : jsstring := [55356%N; 57225%N].

(** [items.map((item, idx) => render (idx + 1) item)]. *)
Definition mapNumbered {A} (render : nat -> A -> jsstring) (items : list A)
    : list jsstring :=
  map (fun it => render (fst it + 1) (snd it)) (indexed items).

Definition incompleteMessage (missingTaskNames : list jsstring) : jsstring :=
  let missingCount := List.length missingTaskNames in
  let taskList :=
    Str.join nl
      (mapNumbered (fun n name => lit "  " ++ Str.ofNat n ++ lit ". " ++ name)
         missingTaskNames) in
  lit "You still need to complete " ++ Str.ofNat missingCount ++ lit " task"
  ++ (if 1 <? missingCount then lit "s" else []) ++ lit ":" ++ nl ++ nl
  ++ taskList ++ nl ++ nl
  ++ lit "Please go back and complete all the tasks on the signs!".

Definition completeMessage (timeString : jsstring)
    (allResponses : list (jsstring * jsstring)) : jsstring :=
  let responsesList :=
    Str.join (nl ++ nl)
      (mapNumbered
         (fun n item =>
            Str.ofNat n ++ lit ". " ++ fst item ++ lit ":" ++ nl ++ lit "   "
            ++ quote ++ snd item ++ quote)
         allResponses) in
  lit "Congratulations! You've completed all the tasks! You've successfully escaped the Picture Book Forest! "
  ++ partyPopper ++ nl ++ nl ++ lit "Your time: " ++ timeString ++ nl ++ nl
  ++ lit "Your responses:" ++ nl ++ nl ++ responsesList.

Definition message (o : Completion.outcome) : jsstring :=
  match o with
  | Completion.Incomplete names => incompleteMessage names
  | Completion.Complete timeString responses =>
      completeMessage timeString responses
  end.

End Feedback.

(** What the completion button shows: [setCompletionFeedback]'s message. *)
Definition completionFeedback (textBoxes : list TextBox)
    (signResponses : list responseRecord) (elapsedTime : nat) : jsstring :=
  Feedback.message (Completion.check textBoxes signResponses elapsedTime).

(** ** Sign dialog state *)

Module Dialog.

Record clicked := mkClicked {
  clickedIndex : nat;
  info : jsstring;
  clickedHasInput : option bool
}.

Record state := mkState {
  signResponses : list responseRecord;
  currentResponse : jsstring;
  clickedTextBox : option clicked;
  dogName : jsstring
}.

Definition initial : state := mkState [] [] None (lit "Beans").

(** The handlers that write the dialog state. *)
Inductive event :=
| ClickSign (idx : nat)          (* a sign's [onClick] *)
| ChangeInput (value : jsstring) (* the textarea's [onChange] *)
| Submit (now : Z)               (* the Submit button *)
| Cancel                         (* the Cancel button *)
| CloseDialog.                   (* the overlay and the Close button *)

Definition step (textBoxes : list TextBox) (st : state) (e : event) : state :=
  match e with
  | ClickSign idx =>
      match nth_error textBoxes idx with
      | Some textBox =>
          match additionalInfo textBox with
          | Some (c :: s) =>
              mkState (signResponses st) (currentResponse st)
                (Some (mkClicked idx (c :: s) (hasInput textBox))) (dogName st)
          | _ => st
          end
      | None => st
      end
  | ChangeInput value =>
      mkState (signResponses st) value (clickedTextBox st) (dogName st)
  | Submit now =>
      match clickedTextBox st with
      | None => st
      | Some box =>
          let trimmedResponse := Str.trim (currentResponse st) in
          let dogName' :=
            if (clickedIndex box =? 1) && Str.nonEmpty trimmedResponse
            then trimmedResponse else dogName st in
          mkState
            (signResponses st
             ++ [mkResponse (clickedIndex box) trimmedResponse now])
            [] None dogName'
      end
  | Cancel => mkState (signResponses st) [] None (dogName st)
  | CloseDialog =>
      mkState (signResponses st) (currentResponse st) None (dogName st)
  end.

Definition run (textBoxes : list TextBox) (events : list event) : state :=
  fold_left (step textBoxes) events initial.

(** [window.getSignResponses()]. *)
Definition getSignResponses (st : state) : list responseRecord :=
  signResponses st.

End Dialog.

(** ** Vocabulary of the completion properties *)

(** What one sign contributes to the two lists of the scan. *)
Definition missingOf (signResponses : list responseRecord)
    (it : nat * TextBox) : list nat :=
  let idx := fst it in
  if idx =? Completion.beansRenameIndex then []
  else if includes Completion.agentTaskIndices idx then
    if Completion.agentTaskCompleted signResponses then [] else [idx]
  else if answered signResponses idx then [] else [idx].

Definition gradedOf (signResponses : list responseRecord)
    (it : nat * TextBox) : list (nat * jsstring) :=
  let idx := fst it in
  if idx =? Completion.beansRenameIndex then []
  else if includes Completion.agentTaskIndices idx then []
  else
    match findResponse signResponses idx, grading (snd it) with
    | Some r, Some grade =>
        if Str.nonEmpty (Str.trim (response r))
        then [(idx, grade (response r))] else []
    | _, _ => []
    end.

(** A sign counts towards completion when it has a grading function and is
    not the guide-naming sign. *)
Definition required (textBoxes : list TextBox) (idx : nat) : Prop :=
  exists tb,
    nth_error textBoxes idx = Some tb /\ hasGrading tb = true
    /\ idx <> Completion.beansRenameIndex.

(** It is satisfied by its own first response, or, for a member of the agent
    pair, by the first response of either member. *)
Definition satisfied (signResponses : list responseRecord) (idx : nat) : bool :=
  if includes Completion.agentTaskIndices idx
  then Completion.agentTaskCompleted signResponses
  else answered signResponses idx.

(** What one sign contributes to the success summary. *)
Definition respondedOf (signResponses : list responseRecord)
    (it : nat * TextBox) : list (jsstring * jsstring) :=
  if fst it =? Completion.beansRenameIndex then []
  else
    match findResponse signResponses (fst it) with
    | Some r =>
        if Str.nonEmpty (Str.trim (response r))
        then [(Completion.taskName (snd it), response r)] else []
    | None => []
    end.

(** The single entry that stands for the agent pair. *)
Definition agentPairName (textBoxes : list TextBox) : jsstring :=
  Str.orElse (Completion.titleOf (nth_error textBoxes 6)) (lit "Find an Agent")
  ++ lit " or "
  ++ Str.orElse (Completion.titleOf (nth_error textBoxes 7))
       (lit "Already have an agent").

Definition otherName (textBoxes : list TextBox) (idx : nat) : list jsstring :=
  if includes Completion.agentTaskIndices idx then []
  else
    match nth_error textBoxes idx with
    | Some tb => [Completion.taskName tb]
    | None => []
    end.

(** Example signs and responses. *)

Definition gradeA (r : jsstring) : jsstring := lit "A: " ++ r.
Definition gradeB (r : jsstring) : jsstring := lit "B: " ++ r.

Definition signA : TextBox :=
  mkTextBox (lit "Task A") 18 600 550 (Some (lit "Do A")) (Some gradeA)
    (Some true) None.
Definition signB : TextBox :=
  mkTextBox (lit "Task B") 18 750 500 (Some (lit "Do B")) (Some gradeB)
    (Some true) None.

Definition plainSign (s : string) : TextBox :=
  mkTextBox (lit s) 18 0 0 None None None None.
Definition taskSign (s : string) : TextBox :=
  mkTextBox (lit s) 18 0 0 (Some (lit "Write below")) (Some gradeA)
    (Some true) (Some (lit s)).

(** Eight signs: tasks at 3, 6 and 7, the guide-naming sign at 1. *)
Definition forestSigns : list TextBox :=
  [plainSign "Welcome"; plainSign "Guide"; plainSign "This way";
   taskSign "Author Task"; plainSign "Agents"; plainSign "Editors";
   taskSign "Agent Option 1"; taskSign "Agent Option 2"].

Definition forestResponses : list responseRecord :=
  [mkResponse 3 (lit "a dragon") 10; mkResponse 7 (lit "Once upon") 20].

(** A visitor who answers sign 3, submits sign 6 empty and then answers
    it. *)
Definition retryEvents : list Dialog.event :=
  [Dialog.ClickSign 3; Dialog.ChangeInput (lit "a dragon"); Dialog.Submit 10;
   Dialog.ClickSign 6; Dialog.Submit 20;
   Dialog.ClickSign 6; Dialog.ChangeInput (lit "Jane"); Dialog.Submit 30].

Definition retryResponses : list responseRecord :=
  Dialog.getSignResponses (Dialog.run forestSigns retryEvents).

(** The records that do not belong to the guide-naming sign. *)
Definition notGuide (r : responseRecord) : bool :=
  negb (index r =? Completion.beansRenameIndex).

(** A stored record whose text is its own trim. *)
Definition trimmedRecord (r : responseRecord) : Prop :=
  Str.trim (response r) = response r.

(** * Model, continued *)

Local Open Scope R_scope.

(** ** Stepping stones

    [PathVisual] draws a stone for each index below its stone count;
    [stoneAt] is the stone of index [i], a size and the top-left corner of
    its box, in exact arithmetic. *)


Module PathVisual.

Definition baseStoneSize (path : Path) : R := Math.min (p_width path * 0.9) 80.
Definition spacing (path : Path) : R := baseStoneSize path * 1.2.








End PathVisual.

Local Close Scope R_scope.

(** ** Sign rendering

    What the sign list computes for each sign from the stored responses:
    the text shown under the sign and whether the sign is dimmed. *)

Module SignView.

Definition agentTaskIndices : list nat := [6; 7].

(** [response?.response || undefined]. *)
Definition responseText (signResponses : list responseRecord) (idx : nat)
    : option jsstring :=
  match findResponse signResponses idx with
  | Some r =>
      match response r with
      | [] => None
      | c :: s => Some (c :: s)
      end
  | None => None
  end.

Definition isCompleted (signResponses : list responseRecord) (idx : nat)
    : bool :=
  let isCompleted :=
    match findResponse signResponses idx with
    | Some r => Str.nonEmpty (Str.trim (response r))
    | None => false
    end in
  if includes agentTaskIndices idx then
    let agentTaskCompleted :=
      existsb
        (fun agentIndex =>
           match findResponse signResponses agentIndex with
           | Some r => Str.nonEmpty (Str.trim (response r))
           | None => false
           end)
        agentTaskIndices in
    agentTaskCompleted
  else isCompleted.

(** The dialog shows the response box, with its Submit and Cancel buttons,
    unless the clicked sign has [hasInput === false]; it then shows the
    Close button only.  An event is enabled when its control is rendered. *)
Definition inputShown (st : Dialog.state) : bool :=
  match Dialog.clickedTextBox st with
  | Some box =>
      match Dialog.clickedHasInput box with
      | Some false => false
      | _ => true
      end
  | None => false
  end.

Definition enabled (st : Dialog.state) (e : Dialog.event) : bool :=
  match e with
  | Dialog.ClickSign _ => true
  | Dialog.ChangeInput _ | Dialog.Submit _ | Dialog.Cancel => inputShown st
  | Dialog.CloseDialog =>
      match Dialog.clickedTextBox st with Some _ => true | None => false end
  end.

(** The states reached from the initial one by enabled events. *)
Inductive reachable (textBoxes : list TextBox) : Dialog.state -> Prop :=
| reach_initial : reachable textBoxes Dialog.initial
| reach_step st e :
    reachable textBoxes st -> enabled st e = true ->
    reachable textBoxes (Dialog.step textBoxes st e).

End SignView.

(** ** Keyboard *)

Module Keyboard.

Record state := mkState {
  keysPressed : keySet;
  facingRight : bool
}.

Definition initial : state := mkState [] true.

(** The four keys the handlers react to. *)
Definition arrowKey (name : string) : option key :=
  if String.eqb name "ArrowUp" then Some ArrowUp
  else if String.eqb name "ArrowDown" then Some ArrowDown
  else if String.eqb name "ArrowLeft" then Some ArrowLeft
  else if String.eqb name "ArrowRight" then Some ArrowRight
  else None.

(** [Set.add] and [Set.delete]. *)
Definition add (k : key) (keys : keySet) : keySet :=
  if has keys k then keys else keys ++ [k].
Definition delete (k : key) (keys : keySet) : keySet :=
  filter (fun k' => negb (key_eqb k k')) keys.

Definition handleKeyDown (name : string) (st : state) : state :=
  match arrowKey name with
  | Some k =>
      mkState (add k (keysPressed st))
        (match k with
         | ArrowRight => true
         | ArrowLeft => false
         | _ => facingRight st
         end)
  | None => st
  end.

Definition handleKeyUp (name : string) (st : state) : state :=
  match arrowKey name with
  | Some k => mkState (delete k (keysPressed st)) (facingRight st)
  | None => st
  end.

End Keyboard.

(** ** Configuration operations *)

Record config := mkConfig {
  cfg_treeBlocks : list TreeBlock;
  cfg_paths : list Path;
  cfg_textBoxes : list TextBox
}.

Definition addTreeBlock (block : TreeBlock) (c : config) : config :=
  mkConfig (cfg_treeBlocks c ++ [block]) (cfg_paths c) (cfg_textBoxes c).
Definition addPath (path : Path) (c : config) : config :=
  mkConfig (cfg_treeBlocks c) (cfg_paths c ++ [path]) (cfg_textBoxes c).
Definition addTextBox (textBox : TextBox) (c : config) : config :=
  mkConfig (cfg_treeBlocks c) (cfg_paths c) (cfg_textBoxes c ++ [textBox]).
Definition clearAll (c : config) : config := mkConfig [] [] [].

(** ** Vocabulary of the further properties *)

(** Reads a five-unit [MM:SS] display back as seconds. *)
Definition digitValue (c : N) : nat := N.to_nat (c - 48).
Definition readTime (s : jsstring) : nat :=
  match s with
  | [m1; m0; _; s1; s0] =>
      (digitValue m1 * 10 + digitValue m0) * 60
      + (digitValue s1 * 10 + digitValue s0)
  | _ => 0
  end.

(** Two signs that differ at most in what their grading functions
    compute. *)
Definition sameButGrader (a b : TextBox) : Prop :=
  text a = text b /\ title a = title b /\ hasGrading a = hasGrading b.

(** A sign that can be answered: it exists, opens a dialog and does not
    switch the response box off. *)
Definition answerable (textBoxes : list TextBox) (idx : nat) : Prop :=
  exists tb,
    nth_error textBoxes idx = Some tb
    /\ Str.orElse (additionalInfo tb) [] <> []
    /\ hasInput tb <> Some false.

(** ** Sign layout

    [TextBoxComponent] estimates the size of a sign from its lines and, when
    a response is shown, the lines of the response. *)

Module SignLayout.

(** [s.split('\n')]. *)
Fixpoint split (s : jsstring) : list jsstring :=
  match s with
  | [] => [[]]
  | c :: s' =>
      if (c =? 10)%N then [] :: split s'
      else
        match split s' with
        | line :: rest => (c :: line) :: rest
        | [] => [[c]]
        end
  end.

(** A response is shown when it is a non-empty string. *)
Definition shown (responseText : option jsstring) : bool :=
  match responseText with
  | Some (_ :: _) => true
  | _ => false
  end.

Definition lines (textBox : TextBox) : list jsstring := split (text textBox).

Definition responseLines (responseText : option jsstring) : list jsstring :=
  match responseText with
  | Some (c :: s) => split (c :: s)
  | _ => []
  end.

Definition allLines (textBox : TextBox) (responseText : option jsstring)
    : list jsstring :=
  lines textBox ++ responseLines responseText.

(** [allLines.reduce((longest, line) =>
      line.length > longest.length ? line : longest, '')]. *)
Definition longestLine (ls : list jsstring) : jsstring :=
  fold_left
    (fun longest line =>
       if List.length longest <? List.length line then line else longest)
    ls [].

Definition maxLineLength (textBox : TextBox) (responseText : option jsstring)
    : nat :=
  List.length (longestLine (allLines textBox responseText)).

Definition totalLines (textBox : TextBox) (responseText : option jsstring)
    : nat :=
  List.length (lines textBox)
  + (if shown responseText
     then List.length (responseLines responseText) + 1 else 0).

Local Open Scope R_scope.

Definition textWidth (textBox : TextBox) (responseText : option jsstring) : R :=
  INR (maxLineLength textBox responseText) * fontSize textBox * 0.6.
Definition signPadding (textBox : TextBox) : R := fontSize textBox * 0.8.
Definition lineHeight (textBox : TextBox) : R := fontSize textBox * 1.3.
Definition signWidth (textBox : TextBox) (responseText : option jsstring) : R :=
  textWidth textBox responseText + signPadding textBox * 2.
Definition signHeight (textBox : TextBox) (responseText : option jsstring) : R :=
  lineHeight textBox * INR (totalLines textBox responseText)
  + signPadding textBox.
Definition poleHeight (textBox : TextBox) (responseText : option jsstring) : R :=
  signHeight textBox responseText * 0.5.
Definition poleWidth (textBox : TextBox) (responseText : option jsstring) : R :=
  signHeight textBox responseText * 0.15.
Definition opacity (isCompleted : bool) : R := if isCompleted then 0.5 else 1.

Local Close Scope R_scope.

End SignLayout.

Definition praise (r : jsstring) : jsstring := lit "Well done: " ++ r.

(** * Properties *)

Local Open Scope R_scope.

(** ** Facts about the number primitives *)

Lemma floor_bound x : Math.floor x <= x < Math.floor x + 1.
Proof. apply Zfloor_bound. Qed.

(** ** Loop lemmas *)

Section ForLoopInvariant.
Context {N S : Type}.
Variables (plus : N -> N -> N) (cond : N -> bool) (step : N).
Variable body : N -> S -> option S.
Variable Inv : S -> Prop.
Hypothesis body_inv : forall x s s', Inv s -> body x s = Some s' -> Inv s'.

Lemma for_loop_inv :
  forall (n : nat) (x : N) (s s' : S),
    Inv s -> for_loop plus n cond step body x s = Some s' -> Inv s'.
Proof.
  induction n as [| n IH]; intros x s s' Hs; cbn [for_loop].
  - destruct (cond x); [discriminate | congruence].
  - destruct (cond x); [| congruence].
    destruct (body x s) as [s1 |] eqn:Hb; [| discriminate].
    apply IH. eapply body_inv; eassumption.
Qed.

End ForLoopInvariant.

Section ForLoopSimulation.
Context {N S1 S2 : Type}.
Variables (plus : N -> N -> N) (cond : N -> bool) (step : N).
Variables (body1 : N -> S1 -> option S1) (body2 : N -> S2 -> option S2).
Variable Rel : S1 -> S2 -> Prop.
Hypothesis body_rel :
  forall x s1 s2 s1',
    Rel s1 s2 -> body1 x s1 = Some s1' ->
    exists s2', body2 x s2 = Some s2' /\ Rel s1' s2'.

Lemma for_loop_simulation :
  forall (n : nat) (x : N) (s1 : S1) (s2 : S2) (s1' : S1),
    Rel s1 s2 ->
    for_loop plus n cond step body1 x s1 = Some s1' ->
    exists s2', for_loop plus n cond step body2 x s2 = Some s2' /\ Rel s1' s2'.
Proof.
  induction n as [| n IH]; intros x s1 s2 s1' Hrel; cbn [for_loop].
  - destruct (cond x); [discriminate |]. intros [= <-]. eauto.
  - destruct (cond x); [| intros [= <-]; eauto].
    destruct (body1 x s1) as [t1 |] eqn:Hb; [| discriminate].
    destruct (body_rel x s1 s2 t1 Hrel Hb) as (t2 & -> & Hrel').
    now apply IH.
Qed.

End ForLoopSimulation.

Section ForLoopFuel.
Context {N S : Type}.
Variables (plus : N -> N -> N) (cond : N -> bool) (step : N).

(** More fuel, also for the body, does not change a result. *)
Lemma for_loop_more_fuel (body body' : N -> S -> option S) :
  (forall x s s', body x s = Some s' -> body' x s = Some s') ->
  forall (n n' : nat) (x : N) (s s' : S),
    (n <= n')%nat ->
    for_loop plus n cond step body x s = Some s' ->
    for_loop plus n' cond step body' x s = Some s'.
Proof.
  intros Hbody. induction n as [| n IH]; intros n' x s s' Hle; cbn [for_loop].
  - destruct (cond x) eqn:Hc; [discriminate |]. intros [= <-].
    destruct n'; cbn [for_loop]; now rewrite Hc.
  - destruct n' as [| n']; [lia |]. cbn [for_loop].
    destruct (cond x); [| easy].
    destruct (body x s) as [t |] eqn:Hb; [| discriminate].
    rewrite (Hbody x s t Hb). apply IH. lia.
Qed.

(** A loop whose variable no longer moves never reaches its exit. *)
Lemma for_loop_stuck (body : N -> S -> option S) (x : N) :
  cond x = true -> plus x step = x ->
  forall (n : nat) (s : S), for_loop plus n cond step body x s = None.
Proof.
  intros Hc Hx. induction n as [| n IH]; intros s; cbn [for_loop]; rewrite Hc.
  - reflexivity.
  - destruct (body x s); [rewrite Hx; apply IH | reflexivity].
Qed.

(** Nor does a loop whose first iteration does not finish. *)
Lemma for_loop_body_fails (body : N -> S -> option S) (x : N) (s : S) :
  cond x = true -> body x s = None ->
  forall n : nat, for_loop plus n cond step body x s = None.
Proof.
  intros Hc Hb n. destruct n; cbn [for_loop]; rewrite Hc; [reflexivity |].
  now rewrite Hb.
Qed.

(** A loop whose condition fails at once leaves the state as it is. *)
Lemma for_loop_skip (body : N -> S -> option S) (x : N) :
  cond x = false ->
  forall (n : nat) (s : S), for_loop plus n cond step body x s = Some s.
Proof. intros Hc n s. destruct n; cbn [for_loop]; now rewrite Hc. Qed.

End ForLoopFuel.

(** ** Lists *)

Lemma existsb_false {A} (f : A -> bool) (l : list A) :
  existsb f l = false -> forall a, In a l -> f a = false.
Proof.
  intros H a Ha. destruct (f a) eqn:E; [| reflexivity].
  assert (existsb f l = true) by (apply existsb_exists; eauto). congruence.
Qed.

Lemma filter_snoc {A} (f : A -> bool) (l : list A) (a : A) :
  filter f (l ++ [a]) = filter f l ++ (if f a then [a] else []).
Proof. rewrite filter_app. reflexivity. Qed.

Lemma map_repeat_Forall {A B} (f : A -> B) (c : B) (l : list A) :
  map f l = repeat c (List.length l) -> Forall (fun a => f a = c) l.
Proof.
  induction l as [| a l IH]; cbn [map List.length repeat]; intros H;
    constructor; injection H; auto.
Qed.

Lemma filter_nil_iff {A} (f : A -> bool) (l : list A) :
  filter f l = [] <-> Forall (fun a => f a = false) l.
Proof.
  induction l as [| a l IH]; cbn [filter].
  - split; [constructor | reflexivity].
  - destruct (f a) eqn:E; split; intros H.
    + discriminate.
    + apply Forall_inv in H. congruence.
    + constructor; [exact E | now apply IH].
    + apply IH. now apply Forall_inv_tail in H.
Qed.

(** ** Binary64 scenery

    Facts about [Module Double].  Closed examples are evaluated; the general
    statements hold for every engine. *)

Section Binary64.
Import PrimFloat.
Local Open Scope float_scope.

(** *** The arithmetic on examples *)

Lemma floor_examples :
  Double.floor 2.5 = 2 /\ Double.floor (-2.5) = -3
  /\ Double.floor (-0x1p-60) = -1 /\ Double.floor 0x1p60 = 0x1p60
  /\ Double.floor (-0) = -0 /\ Double.floor 7 = 7.
Proof. repeat split; vm_compute; reflexivity. Qed.

Lemma round_examples :
  Double.round 2.5 = 3 /\ Double.round (-2.5) = -2
  /\ Double.round 0x1.fffffffffffffp-2 = 0 /\ Double.round (-0.25) = -0
  /\ Double.round 2.25 = 2 /\ Double.round (-2.75) = -3.
Proof. repeat split; vm_compute; reflexivity. Qed.

(** *** Containment *)





Local Open Scope R_scope.

(** The local frame of a path turned by a quarter, in exact geometry. *)
Lemma quarter_turn_frame x y len wid tp lf :
  localCoords x y (mkPath len wid tp lf 90) = (y - tp, - (x - lf)).
Proof.
  unfold localCoords, rotate. cbn [p_angle p_left p_top fst snd].
  replace (90 * PI / 180) with (PI / 2) by lra.
  rewrite cos_neg, sin_neg, cos_PI2, sin_PI2. f_equal; ring.
Qed.


Local Close Scope R_scope.

(** *** Noise *)

(** C7: at the seed [-1e-21], in every engine whose sine is the identity
    there (the sine of so small an argument rounds to the argument),
    [seededRandom] returns exactly 1, outside [0, 1): [x = -1e-17],
    [Math.floor x = -1], and [x + 1] rounds to 1.  The block generator draws
    the x jitter of the first grid cell of the block [speck] from this
    seed. *)
Theorem seededRandom_reaches_one :
  forall m : Double.Engine,
    Double.Math_sin m Double.tiny = Double.tiny ->
    Double.seededRandom m Double.tiny = 1
    /\ (Double.seededRandom m Double.tiny <? 1) = false
    /\ Double.blockSeed Double.speck + 0 * 11 = Double.tiny
    /\ (Double.b_left Double.speck
        <? Double.b_left Double.speck + Double.b_width Double.speck) = true
    /\ (Double.b_top Double.speck
        <? Double.b_top Double.speck + Double.b_length Double.speck) = true.
Proof.
  intros m Hs. unfold Double.seededRandom. rewrite Hs.
  split; [| split; [| split; [| split]]]; vm_compute; reflexivity.
Qed.

Lemma seededRandom_reaches_one_witness :
  Double.Math_sin Double.reference Double.tiny = Double.tiny
  /\ Double.seededRandom Double.reference Double.tiny = 1.
Proof.
  assert (H : Double.Math_sin Double.reference Double.tiny = Double.tiny)
    by (vm_compute; reflexivity).
  split; [exact H |].
  exact (proj1 (seededRandom_reaches_one Double.reference H)).
Defined.

(** *** Rounding *)


(** *** The block generator *)

(** What one grid cell does to the state: the index advances, and at most
    one point is pushed, one that passed the bounds test and the test
    against every path. *)
Lemma treeCell_trees m block paths spacing blockSeed x y st :
  let st' := Double.treeCell m block paths spacing blockSeed x y st in
  Double.trees st' = Double.trees st
  \/ exists t,
       Double.trees st' = Double.trees st ++ [t]
       /\ Double.inBlock block (Double.px t) (Double.py t) = true
       /\ Double.offPaths m paths t = true.
Proof.
  unfold Double.treeCell; cbv zeta.
  destruct (Double.inBlock _ _ _) eqn:Hin; [| now left].
  destruct (existsb _ paths) eqn:Hex; cbn [negb]; [now left |].
  right. eexists; split; [reflexivity |]. split; [exact Hin |].
  unfold Double.offPaths. cbn [Double.px Double.py]. now rewrite Hex.
Qed.

Lemma generateTreeBlock_Forall m fuel block paths (P : Double.point -> Prop) :
  (forall t,
      Double.inBlock block (Double.px t) (Double.py t) = true ->
      Double.offPaths m paths t = true -> P t) ->
  forall ts,
    Double.generateTreeBlock m fuel block paths = Some ts -> Forall P ts.
Proof.
  intros HP ts. unfold Double.generateTreeBlock; cbv zeta.
  destruct (for_loop _ _ _ _ _ _ _) as [st |] eqn:Hloop; [| discriminate].
  intros [= <-]. revert Hloop.
  apply for_loop_inv with (Inv := fun s => Forall P (Double.trees s));
    [| constructor].
  intros x s s' Hs.
  apply for_loop_inv with (Inv := fun s => Forall P (Double.trees s));
    [| exact Hs].
  intros y s1 s2 Hs1 [= <-].
  match goal with
  | |- Forall P (Double.trees (Double.treeCell ?m ?b ?p ?sp ?sd ?x ?y ?s)) =>
      destruct (treeCell_trees m b p sp sd x y s)
        as [-> | (t & -> & Hb & Ho)]; [assumption |]
  end.
  apply Forall_app; split; [assumption |]. constructor; auto.
Qed.

Lemma treeCell_filtered m block paths spacing seed x y s0 s :
  Double.filtered m paths s0 s ->
  Double.filtered m paths
    (Double.treeCell m block [] spacing seed x y s0)
    (Double.treeCell m block paths spacing seed x y s).
Proof.
  intros [Hi Ht]. unfold Double.treeCell; cbv zeta.
  rewrite Hi.
  destruct (Double.inBlock _ _ _); [| split; [reflexivity | exact Ht]].
  cbn [existsb negb].
  destruct (existsb _ paths) eqn:Hex; cbn [negb]; split;
    try reflexivity; cbn [Double.trees];
    rewrite filter_snoc, Ht; unfold Double.offPaths;
    cbn [Double.px Double.py]; rewrite Hex; cbn [negb];
    now rewrite ?app_nil_r.
Qed.

Lemma generateTreeBlock_filter m fuel block paths free :
  Double.generateTreeBlock m fuel block [] = Some free ->
  Double.generateTreeBlock m fuel block paths
  = Some (filter (Double.offPaths m paths) free).
Proof.
  unfold Double.generateTreeBlock; cbv zeta.
  destruct (for_loop _ _ _ _ _ _ _) as [st0 |] eqn:Hfree; [| discriminate].
  intros [= <-].
  eapply (for_loop_simulation _ _ _ _
            (fun x s =>
               for_loop add fuel
                 (fun y => y <? Double.b_top block + Double.b_length block)
                 (100 / Double.b_density block)
                 (fun y s' =>
                    Some (Double.treeCell m block paths
                            (100 / Double.b_density block)
                            (Double.blockSeed block) x y s'))
                 (Double.b_top block) s)
            (Double.filtered m paths))
    with (s2 := Double.mkTreeState [] 0) in Hfree.
  - destruct Hfree as (st & Hst & Hi & Ht). rewrite Hst. simpl. now rewrite Ht.
  - intros x s1 s2 s1' Hrel.
    apply for_loop_simulation with (Rel := Double.filtered m paths);
      [| exact Hrel].
    intros y t1 t2 t1' Ht [= <-]. eexists; split; [reflexivity |].
    now apply treeCell_filtered.
  - split; reflexivity.
Qed.

Lemma generateTreeBlock_free m fuel block paths ts :
  Double.generateTreeBlock m fuel block paths = Some ts ->
  exists free, Double.generateTreeBlock m fuel block [] = Some free.
Proof.
  unfold Double.generateTreeBlock; cbv zeta.
  destruct (for_loop _ _ _ _ _ _ _) as [st |] eqn:Hrun; [| discriminate].
  intros _.
  eapply (for_loop_simulation _ _ _ _
            (fun x s =>
               for_loop add fuel
                 (fun y => y <? Double.b_top block + Double.b_length block)
                 (100 / Double.b_density block)
                 (fun y s' =>
                    Some (Double.treeCell m block []
                            (100 / Double.b_density block)
                            (Double.blockSeed block) x y s'))
                 (Double.b_top block) s)
            (fun _ _ => True)) with (s2 := Double.mkTreeState [] 0) in Hrun.
  - destruct Hrun as (st0 & -> & _). simpl. eauto.
  - intros x s1 s2 s1' _.
    apply for_loop_simulation with (Rel := fun _ _ => True); [| exact I].
    intros y t1 t2 t1' _ _. eauto.
  - exact I.
Qed.

(** A result does not depend on the fuel that was enough for it. *)
Lemma generateTreeBlock_more_fuel m block paths n n' ts :
  (n <= n')%nat ->
  Double.generateTreeBlock m n block paths = Some ts ->
  Double.generateTreeBlock m n' block paths = Some ts.
Proof.
  intros Hle. unfold Double.generateTreeBlock; cbv zeta.
  destruct (for_loop _ n _ _ _ _ _) as [st |] eqn:Hrun; [| discriminate].
  intros [= <-].
  erewrite for_loop_more_fuel; [reflexivity | | exact Hle | exact Hrun].
  intros x s s'. now apply for_loop_more_fuel.
Qed.

Lemma returns_functional m block paths ts ts' :
  Double.returns m block paths ts -> Double.returns m block paths ts' ->
  ts = ts'.
Proof.
  intros [n Hn] [n' Hn'].
  apply (generateTreeBlock_more_fuel m block paths n (Nat.max n n')) in Hn;
    [| apply Nat.le_max_l].
  apply (generateTreeBlock_more_fuel m block paths n' (Nat.max n n')) in Hn';
    [| apply Nat.le_max_r].
  congruence.
Qed.

Lemma offPaths_false m paths t :
  Double.offPaths m paths t = false <->
  exists path,
    In path paths
    /\ Double.isPointInPath m (Double.px t) (Double.py t) path = true.
Proof.
  unfold Double.offPaths. rewrite negb_false_iff, existsb_exists. tauto.
Qed.

Lemma inBlock_true block x y :
  Double.inBlock block x y = true <->
  (Double.b_left block <=? x) = true
  /\ (x <=? Double.b_left block + Double.b_width block) = true
  /\ (Double.b_top block <=? y) = true
  /\ (y <=? Double.b_top block + Double.b_length block) = true.
Proof. unfold Double.inBlock. rewrite !andb_true_iff. tauto. Qed.

(** C2 (amended): whenever the generator returns, every returned point
    passes the block's closed bounds test and [isPointInPath] rejects it for
    every supplied path; the result is empty exactly when every point of the
    generation without paths is accepted by [isPointInPath] for one of the
    supplied paths.  All tests are the binary64 ones of the source. *)
Theorem generateTreeBlock_excludes_paths :
  forall (m : Double.Engine) (block : Double.TreeBlock)
         (paths : list Double.Path) (ts : list Double.point),
    Double.returns m block paths ts ->
    Forall (fun t =>
              (Double.b_left block <=? Double.px t) = true
              /\ (Double.px t <=? Double.b_left block + Double.b_width block)
                 = true
              /\ (Double.b_top block <=? Double.py t) = true
              /\ (Double.py t <=? Double.b_top block + Double.b_length block)
                 = true
              /\ forall path, In path paths ->
                   Double.isPointInPath m (Double.px t) (Double.py t) path
                   = false) ts
    /\ exists free,
         Double.returns m block [] free
         /\ (ts = [] <->
             Forall (fun t =>
                       exists path,
                         In path paths
                         /\ Double.isPointInPath m (Double.px t) (Double.py t)
                              path = true) free).
Proof.
  intros m block paths ts [fuel Hts]. split.
  - revert Hts. apply generateTreeBlock_Forall. intros t Hb Ho.
    apply inBlock_true in Hb. destruct Hb as (H1 & H2 & H3 & H4).
    repeat (split; [assumption |]).
    apply existsb_false. unfold Double.offPaths in Ho.
    now apply negb_true_iff in Ho.
  - destruct (generateTreeBlock_free m fuel block paths ts Hts) as [free Hfree].
    exists free. split; [now exists fuel |].
    pose proof (generateTreeBlock_filter m fuel block paths free Hfree) as Hf.
    assert (ts = filter (Double.offPaths m paths) free) as -> by congruence.
    rewrite filter_nil_iff. split; intros H; eapply Forall_impl; try exact H;
      intros t; apply offPaths_false.
Qed.

Lemma generateTreeBlock_excludes_paths_witness :
  Double.returns Double.reference Double.hedge [Double.crossing]
    [Double.edgeTree]
  /\ Double.isPointInPath Double.reference (Double.px Double.edgeTree)
       (Double.py Double.edgeTree) Double.crossing = false
  /\ Double.returns Double.reference Double.hedge [Double.wideCrossing] []
  /\ Forall (fun t =>
               exists path,
                 In path [Double.wideCrossing]
                 /\ Double.isPointInPath Double.reference (Double.px t)
                      (Double.py t) path = true)
       [Double.nearTree; Double.edgeTree].
Proof.
  assert (H : Double.returns Double.reference Double.hedge [Double.crossing]
                [Double.edgeTree])
    by (exists 3%nat; vm_compute; reflexivity).
  assert (Hw : Double.returns Double.reference Double.hedge
                 [Double.wideCrossing] [])
    by (exists 3%nat; vm_compute; reflexivity).
  assert (Hf : Double.returns Double.reference Double.hedge []
                 [Double.nearTree; Double.edgeTree])
    by (exists 3%nat; vm_compute; reflexivity).
  destruct (generateTreeBlock_excludes_paths _ _ _ _ H) as [Hall _].
  destruct (generateTreeBlock_excludes_paths _ _ _ _ Hw)
    as [_ (free & Hfree & Hiff)].
  split; [exact H |]. split.
  - apply Forall_inv in Hall. apply Hall. now left.
  - split; [exact Hw |].
    rewrite (returns_functional _ _ _ _ _ Hf Hfree). now apply Hiff.
Defined.

Local Open Scope R_scope.

(** The rectangle of [crossing] covers the block [hedge] in exact geometry,
    and the generator keeps the tree (1765, 52.71), which lies on the
    rectangle's edge: its local [v] is computed as 25.000000000000004. *)
Lemma covered_block_keeps_tree :
  Double.generateTreeBlock Double.reference 3 Double.hedge [Double.crossing]
  = Some [Double.edgeTree]
  /\ (forall x y : R,
        1765 <= x <= 1765 + 50 -> 0 <= y <= 0 + 100 ->
        containsPoint_spec x y (mkPath 100 50 0 1790 90)).
Proof.
  split; [vm_compute; reflexivity |].
  intros x y Hx Hy. unfold containsPoint_spec. rewrite quarter_turn_frame.
  cbn [p_length p_width]. split; [lra |]. apply Rabs_le. lra.
Qed.

Local Close Scope R_scope.

(** The outcomes of the examples do not hinge on the last place of the
    noise sines. *)
Lemma examples_any_rounding :
  Forall
    (fun noise =>
       Double.generateTreeBlock (Double.engineOf noise) 3 Double.hedge
         [Double.crossing] = Some [Double.edgeTree]
       /\ Double.generateTreeBlock (Double.engineOf noise) 3 Double.hedge []
          = Some [Double.nearTree; Double.edgeTree]
       /\ Double.seededRandom (Double.engineOf noise) Double.tiny = 1
       /\ Double.generateTreeBlock (Double.engineOf noise) 2 Double.farBlock []
          = Some [Double.mkPoint (Double.round2 Double.far) (-0)])
    (Double.roundings Double.noiseSines).
Proof.
  eapply Forall_impl;
    [| apply (map_repeat_Forall
                (fun noise =>
                   (Double.generateTreeBlock (Double.engineOf noise) 3
                      Double.hedge [Double.crossing],
                    Double.generateTreeBlock (Double.engineOf noise) 3
                      Double.hedge [],
                    Double.seededRandom (Double.engineOf noise) Double.tiny,
                    Double.generateTreeBlock (Double.engineOf noise) 2
                      Double.farBlock []))
                (Some [Double.edgeTree],
                 Some [Double.nearTree; Double.edgeTree], 1,
                 Some [Double.mkPoint (Double.round2 Double.far) (-0)]));
       vm_compute; reflexivity].
  cbv beta. intros noise H. split; [| split; [| split]].
  - exact (f_equal (fun p => fst (fst (fst p))) H).
  - exact (f_equal (fun p => snd (fst (fst p))) H).
  - exact (f_equal (fun p => snd (fst p)) H).
  - exact (f_equal snd H).
Qed.

End Binary64.

(** ** The border generator *)

Lemma borderCells_grid : borderCells = borderGrid.
Proof. vm_compute. reflexivity. Qed.

(** The loops do not look at what they push, so the generator is the image
    of the visited cells. *)
Lemma border_run_map {A} (emit : borderCell -> A) :
  Border.run emit = Some (map emit borderCells).
Proof. vm_compute. reflexivity. Qed.

Lemma generateBorderTrees_cells :
  generateBorderTrees = Some (map Border.borderTree borderCells).
Proof. apply border_run_map. Qed.

(** The first cell of the bottom row of layer 0 sits at
    [WORLD_HEIGHT - BOTTOM_RAISE = 4100], not at [WORLD_HEIGHT + layer]. *)
Lemma bottom_row_is_raised :
  In (mkCell Bottom 0 (-250) 19) borderCells
  /\ Border.nominalY (mkCell Bottom 0 (-250) 19) = 4100%Z
  /\ Border.nominalY (mkCell Bottom 0 (-250) 19)
     <> (WORLD_HEIGHT + c_layer (mkCell Bottom 0 (-250) 19))%Z.
Proof.
  split; [| split].
  - apply (nth_error_In borderCells 19). reflexivity.
  - reflexivity.
  - vm_compute. discriminate.
Qed.

(** C3 (amended): the border generator returns the jittered, rounded images
    of the cells of a regular grid: seven layers 0, 125, ..., 750, and in
    each layer a top, a bottom, a left and a right row with positions 250
    apart along the edge.  Before jitter the top row is at [y = -layer], the
    left row at [x = -layer], the right row at [x = WORLD_WIDTH + layer], and
    the bottom row at [y = WORLD_HEIGHT + layer - BOTTOM_RAISE], that is 200
    above the world's bottom edge offset by the layer. *)
Theorem border_rows_nominal :
  generateBorderTrees = Some (map Border.borderTree borderCells)
  /\ borderCells = borderGrid
  /\ Forall (fun c =>
       match c_side c with
       | Top =>
           Border.nominalX c = c_along c /\ Border.nominalY c = (- c_layer c)%Z
       | Bottom =>
           Border.nominalX c = c_along c
           /\ Border.nominalY c = (WORLD_HEIGHT + c_layer c - 200)%Z
       | Left =>
           Border.nominalX c = (- c_layer c)%Z /\ Border.nominalY c = c_along c
       | Right =>
           Border.nominalX c = (WORLD_WIDTH + c_layer c)%Z
           /\ Border.nominalY c = c_along c
       end) borderCells.
Proof.
  split; [exact generateBorderTrees_cells |].
  split; [exact borderCells_grid |].
  apply Forall_forall. intros [sd layer along counter] _.
  destruct sd; split; reflexivity.
Qed.

(** ** Avatar movement *)

Lemma max_clamp_bounds lo hi v :
  lo <= hi -> v <= hi -> lo <= Math.max lo v <= hi.
Proof.
  intros. unfold Math.max. split; [apply Rmax_l | apply Rmax_lub; lra].
Qed.

Lemma min_clamp_bounds lo hi v :
  lo <= hi -> lo <= v -> lo <= Math.min hi v <= hi.
Proof.
  intros. unfold Math.min. split; [apply Rmin_glb; lra | apply Rmin_l].
Qed.

Lemma max_clamp_idempotent lo v : Math.max lo (Math.max lo v) = Math.max lo v.
Proof. unfold Math.max. apply Rmax_right, Rmax_l. Qed.

Lemma min_clamp_idempotent hi v : Math.min hi (Math.min hi v) = Math.min hi v.
Proof. unfold Math.min. apply Rmin_right, Rmin_l. Qed.

(** C8: one tick keeps the avatar inside the clamp bounds for every set of
    pressed keys; the clamps are idempotent, and a position already at a
    bound stays there when the key towards that bound is held. *)
Theorem updatePosition_in_bounds :
  forall (keysPressed : keySet) (prev : position),
    inWorldBounds prev ->
    let next := updatePosition keysPressed prev in
    inWorldBounds next
    /\ (forall lo hi v,
          Math.max lo (Math.max lo v) = Math.max lo v
          /\ Math.min hi (Math.min hi v) = Math.min hi v)
    /\ (has keysPressed ArrowUp = true -> has keysPressed ArrowDown = false ->
        pos_y prev = 650 -> pos_y next = 650)
    /\ (has keysPressed ArrowDown = true ->
        pos_y prev = IZR WORLD_HEIGHT - 200 -> pos_y next = IZR WORLD_HEIGHT - 200)
    /\ (has keysPressed ArrowLeft = true -> has keysPressed ArrowRight = false ->
        pos_x prev = 550 -> pos_x next = 550)
    /\ (has keysPressed ArrowRight = true ->
        pos_x prev = IZR WORLD_WIDTH - 200 -> pos_x next = IZR WORLD_WIDTH - 200).
Proof.
  intros keys [x y] [Hx Hy]. unfold WORLD_WIDTH, WORLD_HEIGHT in *.
  simpl in Hx, Hy. cbv zeta.
  unfold updatePosition, inWorldBounds, WORLD_WIDTH, WORLD_HEIGHT, SPEED; simpl.
  split; [| split; [| repeat split]].
  - split.
    + destruct (has keys ArrowRight); [apply min_clamp_bounds; lra |].
      destruct (has keys ArrowLeft); [apply max_clamp_bounds; lra | lra].
    + destruct (has keys ArrowDown); [apply min_clamp_bounds; lra |].
      destruct (has keys ArrowUp); [apply max_clamp_bounds; lra | lra].
  - intros lo hi v. split;
      [apply max_clamp_idempotent | apply min_clamp_idempotent].
  - intros -> -> ->. unfold Math.max. apply Rmax_left. lra.
  - intros -> ->. unfold Math.min. apply Rmin_left. lra.
  - intros -> -> ->. unfold Math.max. apply Rmax_left. lra.
  - intros -> ->. unfold Math.min. apply Rmin_left. lra.
Qed.

Lemma updatePosition_in_bounds_witness :
  inWorldBounds startPosition
  /\ inWorldBounds (updatePosition [ArrowUp; ArrowLeft] startPosition).
Proof.
  assert (H : inWorldBounds startPosition).
  { unfold inWorldBounds, startPosition, WORLD_WIDTH, WORLD_HEIGHT; simpl. lra. }
  split; [exact H |].
  exact (proj1 (updatePosition_in_bounds [ArrowUp; ArrowLeft] startPosition H)).
Defined.

Local Close Scope R_scope.

(** ** Facts about [trim] *)

Section DropWhile.
Variable p : N -> bool.

Lemma dropWhile_fixed c s : p c = false -> Str.dropWhile p (c :: s) = c :: s.
Proof. intros H; simpl; now rewrite H. Qed.

Lemma dropWhile_idempotent s :
  Str.dropWhile p (Str.dropWhile p s) = Str.dropWhile p s.
Proof.
  induction s as [| c s IH]; simpl; [reflexivity |].
  destruct (p c) eqn:E; [exact IH |]. simpl. now rewrite E.
Qed.

Lemma dropWhile_snoc s c :
  p c = false -> Str.dropWhile p (s ++ [c]) = Str.dropWhile p s ++ [c].
Proof.
  intros H. induction s as [| a s IH]; simpl.
  - now rewrite H.
  - destruct (p a); [exact IH | reflexivity].
Qed.

End DropWhile.

Lemma trimEnd_keeps_head c s :
  Str.isWhiteSpace c = false -> exists s', Str.trimEnd (c :: s) = c :: s'.
Proof.
  intros H. unfold Str.trimEnd. simpl rev.
  rewrite dropWhile_snoc by assumption. rewrite rev_app_distr. simpl. eauto.
Qed.

Lemma trimEnd_idempotent s : Str.trimEnd (Str.trimEnd s) = Str.trimEnd s.
Proof.
  unfold Str.trimEnd. now rewrite rev_involutive, dropWhile_idempotent.
Qed.

Lemma trimStart_head s :
  Str.trimStart s = []
  \/ exists c s', Str.trimStart s = c :: s' /\ Str.isWhiteSpace c = false.
Proof.
  unfold Str.trimStart. induction s as [| c s IH]; simpl; [now left |].
  destruct (Str.isWhiteSpace c) eqn:E; [exact IH |]. right. eauto.
Qed.

Lemma trim_idempotent s : Str.trim (Str.trim s) = Str.trim s.
Proof.
  unfold Str.trim at 2 3.
  destruct (trimStart_head s) as [-> | (c & s' & -> & Hc)]; [reflexivity |].
  destruct (trimEnd_keeps_head c s' Hc) as [s'' Hs''].
  rewrite Hs''. unfold Str.trim, Str.trimStart.
  rewrite dropWhile_fixed by assumption.
  rewrite <- Hs''. apply trimEnd_idempotent.
Qed.

(** ** Facts about the completion scan *)

Lemma In_indexed_from {A} (l : list A) (s i : nat) (a : A) :
  In (i, a) (combine (seq s (List.length l)) l)
  <-> s <= i /\ nth_error l (i - s) = Some a.
Proof.
  revert s. induction l as [| b l IH]; intros s; simpl.
  - split; [tauto |]. intros [_ H]. destruct (i - s); discriminate.
  - rewrite IH. split.
    + intros [[= <- <-] | [Hle Hn]].
      * rewrite Nat.sub_diag. simpl. auto.
      * split; [lia |]. replace (i - s) with (S (i - S s)) by lia. exact Hn.
    + intros [Hle Hn]. destruct (Nat.eq_dec s i) as [<- | Hne].
      * rewrite Nat.sub_diag in Hn. simpl in Hn. left. congruence.
      * right. split; [lia |].
        replace (i - s) with (S (i - S s)) in Hn by lia. exact Hn.
Qed.

Lemma In_indexed {A} (l : list A) (i : nat) (a : A) :
  In (i, a) (indexed l) <-> nth_error l i = Some a.
Proof.
  unfold indexed. rewrite In_indexed_from, Nat.sub_0_r.
  split; [tauto | split; [lia | assumption]].
Qed.

Lemma In_textBoxesWithGrading textBoxes idx tb :
  In (idx, tb) (Completion.textBoxesWithGrading textBoxes)
  <-> nth_error textBoxes idx = Some tb /\ hasGrading tb = true.
Proof.
  unfold Completion.textBoxesWithGrading.
  rewrite filter_In, In_indexed. simpl. tauto.
Qed.

Lemma scanStep_appends signResponses st it :
  Completion.scanStep signResponses st it
  = Completion.mkScan
      (Completion.missingResponses st ++ missingOf signResponses it)
      (Completion.gradingResults st ++ gradedOf signResponses it).
Proof.
  destruct it as [idx tb], st as [ms gs].
  unfold Completion.scanStep, missingOf, gradedOf, answered; simpl fst; simpl snd.
  destruct (idx =? Completion.beansRenameIndex);
    [now rewrite !app_nil_r |].
  destruct (includes Completion.agentTaskIndices idx).
  - destruct (Completion.agentTaskCompleted signResponses); simpl;
      now rewrite ?app_nil_r.
  - destruct (findResponse signResponses idx) as [r |]; simpl;
      [| now rewrite app_nil_r].
    destruct (Str.nonEmpty (Str.trim (response r))); simpl;
      [| destruct (grading tb); now rewrite app_nil_r].
    destruct (grading tb); simpl; now rewrite ?app_nil_r.
Qed.

Lemma scan_fold signResponses l st :
  fold_left (Completion.scanStep signResponses) l st
  = Completion.mkScan
      (Completion.missingResponses st ++ flat_map (missingOf signResponses) l)
      (Completion.gradingResults st ++ flat_map (gradedOf signResponses) l).
Proof.
  revert st. induction l as [| it l IH]; intros st; simpl.
  - destruct st. now rewrite !app_nil_r.
  - rewrite IH, scanStep_appends. simpl. now rewrite <- !app_assoc.
Qed.

Lemma scan_lists textBoxes signResponses :
  Completion.scan textBoxes signResponses
  = Completion.mkScan
      (flat_map (missingOf signResponses)
         (Completion.textBoxesWithGrading textBoxes))
      (flat_map (gradedOf signResponses)
         (Completion.textBoxesWithGrading textBoxes)).
Proof. unfold Completion.scan. now rewrite scan_fold. Qed.

Lemma In_missingResponses textBoxes signResponses idx :
  In idx (Completion.missingResponses (Completion.scan textBoxes signResponses))
  <-> required textBoxes idx /\ satisfied signResponses idx = false.
Proof.
  rewrite scan_lists. cbn [Completion.missingResponses].
  rewrite in_flat_map. unfold required, satisfied.
  split.
  - intros ([i tb] & Hin & Hm). apply In_textBoxesWithGrading in Hin.
    unfold missingOf in Hm. simpl fst in Hm.
    destruct (i =? Completion.beansRenameIndex) eqn:Hb; [contradiction |].
    apply Nat.eqb_neq in Hb.
    destruct (includes Completion.agentTaskIndices i) eqn:Ha.
    + destruct (Completion.agentTaskCompleted signResponses) eqn:Hc;
        [contradiction |].
      destruct Hm as [<- | []]. rewrite Ha. split; [| reflexivity].
      exists tb. tauto.
    + destruct (answered signResponses i) eqn:Hc; [contradiction |].
      destruct Hm as [<- | []]. rewrite Ha. split; [| assumption].
      exists tb. tauto.
  - intros [(tb & Hn & Hg & Hb) Hs]. exists (idx, tb). split.
    + apply In_textBoxesWithGrading. tauto.
    + unfold missingOf. simpl fst. apply Nat.eqb_neq in Hb. rewrite Hb.
      destruct (includes Completion.agentTaskIndices idx);
        rewrite Hs; now left.
Qed.

Lemma In_gradingResults textBoxes signResponses idx feedback :
  In (idx, feedback)
     (Completion.gradingResults (Completion.scan textBoxes signResponses))
  <-> exists tb grade r,
        nth_error textBoxes idx = Some tb /\ grading tb = Some grade
        /\ idx <> Completion.beansRenameIndex
        /\ includes Completion.agentTaskIndices idx = false
        /\ findResponse signResponses idx = Some r
        /\ Str.nonEmpty (Str.trim (response r)) = true
        /\ feedback = grade (response r).
Proof.
  rewrite scan_lists. cbn [Completion.gradingResults].
  rewrite in_flat_map. split.
  - intros ([i tb] & Hin & Hg). apply In_textBoxesWithGrading in Hin.
    unfold gradedOf in Hg. simpl fst in Hg. simpl snd in Hg.
    destruct (i =? Completion.beansRenameIndex) eqn:Hb; [contradiction |].
    apply Nat.eqb_neq in Hb.
    destruct (includes Completion.agentTaskIndices i) eqn:Ha; [contradiction |].
    destruct (findResponse signResponses i) as [r |] eqn:Hf; [| contradiction].
    destruct (grading tb) as [grade |] eqn:Hgr; [| contradiction].
    destruct (Str.nonEmpty (Str.trim (response r))) eqn:Hne; [| contradiction].
    destruct Hg as [[= <- <-] | []].
    exists tb, grade, r. tauto.
  - intros (tb & grade & r & Hn & Hgr & Hb & Ha & Hf & Hne & ->).
    exists (idx, tb). split.
    + apply In_textBoxesWithGrading. unfold hasGrading. now rewrite Hgr.
    + unfold gradedOf. simpl fst. simpl snd. apply Nat.eqb_neq in Hb.
      rewrite Hb, Ha, Hf, Hgr, Hne. now left.
Qed.

Lemma collectStep_appends signResponses all it :
  Completion.collectStep signResponses all it
  = all ++ respondedOf signResponses it.
Proof.
  destruct it as [idx tb].
  unfold Completion.collectStep, respondedOf; simpl fst; simpl snd.
  destruct (idx =? Completion.beansRenameIndex); [now rewrite app_nil_r |].
  destruct (includes Completion.agentTaskIndices idx);
    destruct (findResponse signResponses idx) as [r |];
    try destruct (Str.nonEmpty (Str.trim (response r)));
    now rewrite ?app_nil_r.
Qed.

Lemma allResponses_list textBoxes signResponses :
  Completion.allResponses textBoxes signResponses
  = flat_map (respondedOf signResponses)
      (Completion.textBoxesWithGrading textBoxes).
Proof.
  unfold Completion.allResponses.
  assert (H : forall l acc,
             fold_left (Completion.collectStep signResponses) l acc
             = acc ++ flat_map (respondedOf signResponses) l).
  { induction l as [| it l IH]; intros acc; simpl.
    - now rewrite app_nil_r.
    - now rewrite IH, collectStep_appends, <- app_assoc. }
  now rewrite H.
Qed.

Lemma In_allResponses textBoxes signResponses name resp :
  In (name, resp) (Completion.allResponses textBoxes signResponses)
  <-> exists idx tb r,
        nth_error textBoxes idx = Some tb /\ hasGrading tb = true
        /\ idx <> Completion.beansRenameIndex
        /\ findResponse signResponses idx = Some r
        /\ Str.nonEmpty (Str.trim (response r)) = true
        /\ name = Completion.taskName tb /\ resp = response r.
Proof.
  rewrite allResponses_list, in_flat_map. split.
  - intros ([i tb] & Hin & Hr). apply In_textBoxesWithGrading in Hin.
    unfold respondedOf in Hr. simpl fst in Hr. simpl snd in Hr.
    destruct (i =? Completion.beansRenameIndex) eqn:Hb; [contradiction |].
    apply Nat.eqb_neq in Hb.
    destruct (findResponse signResponses i) as [r |] eqn:Hf; [| contradiction].
    destruct (Str.nonEmpty (Str.trim (response r))) eqn:Hne; [| contradiction].
    destruct Hr as [[= <- <-] | []]. exists i, tb, r. tauto.
  - intros (idx & tb & r & Hn & Hg & Hb & Hf & Hne & -> & ->).
    exists (idx, tb). split; [apply In_textBoxesWithGrading; tauto |].
    unfold respondedOf. simpl fst. simpl snd. apply Nat.eqb_neq in Hb.
    rewrite Hb, Hf, Hne. now left.
Qed.

Lemma missingTaskNames_list textBoxes missing :
  Completion.missingTaskNames textBoxes missing
  = (if existsb (includes Completion.agentTaskIndices) missing
     then [agentPairName textBoxes] else [])
    ++ flat_map (otherName textBoxes) missing.
Proof.
  unfold Completion.missingTaskNames; cbv zeta.
  assert (Hfold : forall l acc,
    fold_left
      (fun names idx =>
         if negb (includes Completion.agentTaskIndices idx) then
           match nth_error textBoxes idx with
           | Some textBox => names ++ [Completion.taskName textBox]
           | None => names
           end
         else names) l acc
    = acc ++ flat_map (otherName textBoxes) l).
  { induction l as [| idx l IH]; intros acc; cbn [fold_left flat_map].
    - now rewrite app_nil_r.
    - rewrite IH. unfold otherName at 2.
      destruct (includes Completion.agentTaskIndices idx); cbn [negb app];
        [reflexivity |].
      destruct (nth_error textBoxes idx); cbn [app];
        [now rewrite <- app_assoc | reflexivity]. }
  rewrite Hfold. f_equal.
  assert (Hany : (0 <? List.length
                    (filter (includes Completion.agentTaskIndices) missing))
                 = existsb (includes Completion.agentTaskIndices) missing).
  { induction missing as [| idx l IH]; cbn [filter existsb]; [reflexivity |].
    destruct (includes Completion.agentTaskIndices idx); cbn [orb];
      [reflexivity | exact IH]. }
  now rewrite Hany.
Qed.

Lemma check_cases textBoxes signResponses elapsedTime :
  Completion.check textBoxes signResponses elapsedTime
  = match Completion.missingResponses
            (Completion.scan textBoxes signResponses) with
    | [] =>
        Completion.Complete (formatTime elapsedTime)
          (Completion.allResponses textBoxes signResponses)
    | _ :: _ =>
        Completion.Incomplete
          (Completion.missingTaskNames textBoxes
             (Completion.missingResponses
                (Completion.scan textBoxes signResponses)))
    end.
Proof.
  unfold Completion.check; cbv zeta.
  destruct (Completion.missingResponses _); reflexivity.
Qed.

(** Two signs, at indices 0 and 1: the second is the guide-naming sign. *)
Lemma two_signs_scan (A B : TextBox) (gradeA : jsstring -> jsstring)
    (signResponses : list responseRecord) :
  grading A = Some gradeA ->
  Completion.scan [A; B] signResponses
  = Completion.mkScan
      (if answered signResponses 0 then [] else [0])
      (match findResponse signResponses 0 with
       | Some r =>
           if Str.nonEmpty (Str.trim (response r))
           then [(0, gradeA (response r))] else []
       | None => []
       end)
  /\ Completion.allResponses [A; B] signResponses
     = match findResponse signResponses 0 with
       | Some r =>
           if Str.nonEmpty (Str.trim (response r))
           then [(Completion.taskName A, response r)] else []
       | None => []
       end.
Proof.
  intros HA. rewrite scan_lists, allResponses_list.
  assert (HgA : hasGrading A = true) by (unfold hasGrading; now rewrite HA).
  unfold Completion.textBoxesWithGrading, indexed.
  cbn [List.length seq combine filter snd]. rewrite HgA.
  destruct (hasGrading B); cbn [flat_map app];
    unfold missingOf, gradedOf, respondedOf;
    simpl; rewrite ?HA;
    destruct (answered signResponses 0) eqn:Hans; unfold answered in Hans;
    destruct (findResponse signResponses 0) as [r |]; simpl;
    try destruct (Str.nonEmpty (Str.trim (response r)));
    try discriminate; split; reflexivity.
Qed.

(** With both signs answered the check succeeds, but the second sign sits
    at the guide-naming index: its grading function is never applied. *)
Lemma guide_sign_never_graded :
  let signResponses := [mkResponse 1 (lit "x") 10; mkResponse 0 (lit "y") 20] in
  Completion.check [signA; signB] signResponses 75
  = Completion.Complete (lit "01:15") [(lit "Task A", lit "y")]
  /\ Completion.gradingResults (Completion.scan [signA; signB] signResponses)
     = [(0, gradeA (lit "y"))]
  /\ ~ In (1, gradeB (lit "x"))
         (Completion.gradingResults
            (Completion.scan [signA; signB] signResponses)).
Proof.
  cbv zeta. split; [vm_compute; reflexivity |].
  split; [vm_compute; reflexivity |].
  vm_compute. intros [H | []]. discriminate.
Qed.

(** C4 (amended): a sign is required when it has a grading function and is
    not the guide-naming sign (index 1); it is satisfied when the first
    record stored for it has a non-empty trimmed text, the agent pair (6, 7)
    when either member is.  The check fails exactly when a required sign is
    not satisfied and then names the missing tasks by title or first line,
    the agent pair as one entry; otherwise it succeeds with the elapsed time
    and the first response of every satisfied required sign.  Feedback is
    computed by the sign's own grading function for every answered required
    sign outside the agent pair.  For two signs A and B (indices 0 and 1) the
    check names exactly A while A is unanswered, and with A answered it
    succeeds with A's response and A's feedback. *)
Theorem completion_check_outcome :
  forall (textBoxes : list TextBox) (signResponses : list responseRecord)
         (elapsedTime : nat),
    let st := Completion.scan textBoxes signResponses in
    let missing := Completion.missingResponses st in
    (forall idx,
        In idx missing
        <-> required textBoxes idx /\ satisfied signResponses idx = false)
    /\ Completion.check textBoxes signResponses elapsedTime
       = match missing with
         | [] =>
             Completion.Complete (formatTime elapsedTime)
               (Completion.allResponses textBoxes signResponses)
         | _ :: _ =>
             Completion.Incomplete (Completion.missingTaskNames textBoxes missing)
         end
    /\ Completion.missingTaskNames textBoxes missing
       = (if existsb (includes Completion.agentTaskIndices) missing
          then [agentPairName textBoxes] else [])
         ++ flat_map (otherName textBoxes) missing
    /\ (forall idx feedback,
          In (idx, feedback) (Completion.gradingResults st)
          <-> exists tb grade r,
                nth_error textBoxes idx = Some tb /\ grading tb = Some grade
                /\ idx <> Completion.beansRenameIndex
                /\ includes Completion.agentTaskIndices idx = false
                /\ findResponse signResponses idx = Some r
                /\ Str.nonEmpty (Str.trim (response r)) = true
                /\ feedback = grade (response r))
    /\ (forall name resp,
          In (name, resp) (Completion.allResponses textBoxes signResponses)
          <-> exists idx tb r,
                nth_error textBoxes idx = Some tb /\ hasGrading tb = true
                /\ idx <> Completion.beansRenameIndex
                /\ findResponse signResponses idx = Some r
                /\ Str.nonEmpty (Str.trim (response r)) = true
                /\ name = Completion.taskName tb /\ resp = response r)
    /\ (forall A B grade,
          grading A = Some grade ->
          (answered signResponses 0 = false ->
           Completion.check [A; B] signResponses elapsedTime
           = Completion.Incomplete [Completion.taskName A])
          /\ (forall r,
                findResponse signResponses 0 = Some r ->
                Str.nonEmpty (Str.trim (response r)) = true ->
                Completion.check [A; B] signResponses elapsedTime
                = Completion.Complete (formatTime elapsedTime)
                    [(Completion.taskName A, response r)]
                /\ Completion.gradingResults
                     (Completion.scan [A; B] signResponses)
                   = [(0, grade (response r))])).
Proof.
  intros textBoxes signResponses elapsedTime. cbv zeta.
  split; [intros idx; apply In_missingResponses |].
  split; [apply check_cases |].
  split; [apply missingTaskNames_list |].
  split; [intros idx feedback; apply In_gradingResults |].
  split; [intros name resp; apply In_allResponses |].
  intros A B grade HA.
  destruct (two_signs_scan A B grade signResponses HA) as [Hscan Hall].
  split.
  - intros Hans. rewrite check_cases, Hscan. simpl. rewrite Hans.
    rewrite missingTaskNames_list. simpl.
    destruct A as [txt fs tp lf ai gr hi ti]. reflexivity.
  - intros r Hf Hne. rewrite check_cases, Hscan, Hall. simpl.
    unfold answered. rewrite Hf, Hne. split; reflexivity.
Qed.

Lemma completion_check_outcome_witness :
  Completion.check [signA; signB] [mkResponse 1 (lit "x") 10] 75
  = Completion.Incomplete [lit "Task A"].
Proof.
  exact (proj1
           (proj2 (proj2 (proj2 (proj2 (proj2
              (completion_check_outcome [] [mkResponse 1 (lit "x") 10] 75)))))
              signA signB gradeA eq_refl)
           eq_refl).
Defined.

(** ** The agent pair *)

(** Lookups take the first record of a sign.  After an empty submission for
    sign 6 and a later answer to it, the store holds a non-empty response
    for a member of the pair and for the only other task, and the check
    still reports the pair. *)
Lemma empty_first_answer_blocks_pair :
  retryResponses
  = [mkResponse 3 (lit "a dragon") 10; mkResponse 6 [] 20;
     mkResponse 6 (lit "Jane") 30]
  /\ existsb (fun r => (index r =? 6) && Str.nonEmpty (Str.trim (response r)))
       retryResponses = true
  /\ answered retryResponses 3 = true
  /\ Completion.check forestSigns retryResponses 75
     = Completion.Incomplete [lit "Agent Option 1 or Agent Option 2"].
Proof.
  split; [| split; [| split]]; vm_compute; reflexivity.
Qed.

Lemma agentTaskCompleted_iff signResponses :
  Completion.agentTaskCompleted signResponses = true
  <-> answered signResponses 6 = true \/ answered signResponses 7 = true.
Proof.
  unfold Completion.agentTaskCompleted, Completion.agentTaskIndices. simpl.
  rewrite orb_false_r, orb_true_iff. tauto.
Qed.

(** C5 (amended): when the first response of sign 6 or of sign 7 is
    non-empty after trimming, neither sign is reported missing, whatever the
    other holds; if every other required sign is answered too, the check
    succeeds. *)
Theorem agent_pair_substitutable :
  forall (textBoxes : list TextBox) (signResponses : list responseRecord)
         (elapsedTime : nat),
    answered signResponses 6 = true \/ answered signResponses 7 = true ->
    let missing :=
      Completion.missingResponses (Completion.scan textBoxes signResponses) in
    ~ In 6 missing /\ ~ In 7 missing
    /\ existsb (includes Completion.agentTaskIndices) missing = false
    /\ ((forall idx tb,
            nth_error textBoxes idx = Some tb -> hasGrading tb = true ->
            idx <> 1 -> idx <> 6 -> idx <> 7 ->
            answered signResponses idx = true) ->
        Completion.check textBoxes signResponses elapsedTime
        = Completion.Complete (formatTime elapsedTime)
            (Completion.allResponses textBoxes signResponses)).
Proof.
  intros textBoxes signResponses elapsedTime Hagent. cbv zeta.
  apply agentTaskCompleted_iff in Hagent.
  assert (Hpair : forall idx,
             includes Completion.agentTaskIndices idx = true ->
             ~ In idx (Completion.missingResponses
                         (Completion.scan textBoxes signResponses))).
  { intros idx Hinc Hin. apply In_missingResponses in Hin.
    destruct Hin as [_ Hs]. unfold satisfied in Hs.
    rewrite Hinc in Hs. congruence. }
  split; [apply Hpair; reflexivity |].
  split; [apply Hpair; reflexivity |].
  split.
  - apply not_true_is_false. intros Hex.
    apply existsb_exists in Hex. destruct Hex as (idx & Hin & Hinc).
    exact (Hpair idx Hinc Hin).
  - intros Hothers. rewrite check_cases.
    destruct (Completion.missingResponses _) as [| idx rest] eqn:Hm;
      [reflexivity |].
    exfalso.
    assert (Hin : In idx (Completion.missingResponses
                            (Completion.scan textBoxes signResponses)))
      by (rewrite Hm; now left).
    pose proof Hin as Hin'. apply In_missingResponses in Hin'.
    destruct Hin' as [(tb & Hn & Hg & Hb) Hs]. unfold satisfied in Hs.
    destruct (includes Completion.agentTaskIndices idx) eqn:Hinc.
    + congruence.
    + assert (idx <> 6 /\ idx <> 7) as [H6 H7].
      { split; intros ->; discriminate. }
      rewrite (Hothers idx tb Hn Hg Hb H6 H7) in Hs. discriminate.
Qed.

Lemma agent_pair_substitutable_witness :
  answered forestResponses 6 = false
  /\ Completion.check forestSigns forestResponses 75
     = Completion.Complete (lit "01:15")
         [(lit "Author Task", lit "a dragon");
          (lit "Agent Option 2", lit "Once upon")].
Proof.
  split; [reflexivity |].
  assert (Hall : Completion.allResponses forestSigns forestResponses
                 = [(lit "Author Task", lit "a dragon");
                    (lit "Agent Option 2", lit "Once upon")])
    by (vm_compute; reflexivity).
  rewrite <- Hall.
  apply (agent_pair_substitutable forestSigns forestResponses 75);
    [right; reflexivity |].
  intros idx tb Hn Hg H1 H6 H7.
  do 8 (destruct idx as [| idx];
        [simpl in Hn; injection Hn as <-; try discriminate Hg;
         try reflexivity; congruence |]).
  destruct idx; discriminate Hn.
Defined.

(** ** The guide-naming sign *)

Lemma findResponse_notGuide signResponses idx :
  idx <> Completion.beansRenameIndex ->
  findResponse (filter notGuide signResponses) idx
  = findResponse signResponses idx.
Proof.
  intros Hidx. unfold findResponse.
  induction signResponses as [| r rs IH]; simpl; [reflexivity |].
  unfold notGuide at 1.
  destruct (index r =? Completion.beansRenameIndex) eqn:Hr; simpl.
  - apply Nat.eqb_eq in Hr.
    replace (index r =? idx) with false; [exact IH |].
    symmetry. apply Nat.eqb_neq. congruence.
  - destruct (index r =? idx); [reflexivity | exact IH].
Qed.

Section SameOffGuide.
Variables rs1 rs2 : list responseRecord.
Hypothesis same :
  forall idx, idx <> Completion.beansRenameIndex ->
              findResponse rs1 idx = findResponse rs2 idx.

Lemma answered_same idx :
  idx <> Completion.beansRenameIndex -> answered rs1 idx = answered rs2 idx.
Proof. intros H. unfold answered. now rewrite (same idx H). Qed.

Lemma agentTaskCompleted_same :
  Completion.agentTaskCompleted rs1 = Completion.agentTaskCompleted rs2.
Proof.
  unfold Completion.agentTaskCompleted, Completion.agentTaskIndices. simpl.
  rewrite (answered_same 6), (answered_same 7); [reflexivity | |];
    discriminate.
Qed.

Lemma scanStep_same st it :
  Completion.scanStep rs1 st it = Completion.scanStep rs2 st it.
Proof.
  destruct it as [idx tb]. unfold Completion.scanStep.
  destruct (idx =? Completion.beansRenameIndex) eqn:Hb; [reflexivity |].
  apply Nat.eqb_neq in Hb.
  now rewrite agentTaskCompleted_same, (same idx Hb).
Qed.

Lemma collectStep_same all it :
  Completion.collectStep rs1 all it = Completion.collectStep rs2 all it.
Proof.
  destruct it as [idx tb]. unfold Completion.collectStep.
  destruct (idx =? Completion.beansRenameIndex) eqn:Hb; [reflexivity |].
  apply Nat.eqb_neq in Hb. now rewrite (same idx Hb).
Qed.

Lemma fold_left_same {A B} (f g : A -> B -> A) (l : list B) :
  (forall a b, f a b = g a b) -> forall a, fold_left f l a = fold_left g l a.
Proof.
  intros Hfg. induction l as [| b l IH]; intros a; simpl; [reflexivity |].
  now rewrite Hfg, IH.
Qed.

Lemma check_same textBoxes elapsedTime :
  Completion.scan textBoxes rs1 = Completion.scan textBoxes rs2
  /\ Completion.check textBoxes rs1 elapsedTime
     = Completion.check textBoxes rs2 elapsedTime.
Proof.
  assert (Hscan : Completion.scan textBoxes rs1 = Completion.scan textBoxes rs2).
  { unfold Completion.scan. apply fold_left_same, scanStep_same. }
  split; [exact Hscan |].
  unfold Completion.check, Completion.allResponses. rewrite Hscan.
  now rewrite (fold_left_same _ _ _ collectStep_same).
Qed.

End SameOffGuide.

(** C6: two response lists that agree once the records of the guide-naming
    sign (index 1) are removed give the same scan, the same outcome and the
    same message. *)
Theorem guide_sign_noninterference :
  forall (textBoxes : list TextBox) (rs1 rs2 : list responseRecord)
         (elapsedTime : nat),
    filter notGuide rs1 = filter notGuide rs2 ->
    Completion.scan textBoxes rs1 = Completion.scan textBoxes rs2
    /\ Completion.check textBoxes rs1 elapsedTime
       = Completion.check textBoxes rs2 elapsedTime
    /\ completionFeedback textBoxes rs1 elapsedTime
       = completionFeedback textBoxes rs2 elapsedTime.
Proof.
  intros textBoxes rs1 rs2 elapsedTime Heq.
  assert (Hsame : forall idx, idx <> Completion.beansRenameIndex ->
                              findResponse rs1 idx = findResponse rs2 idx).
  { intros idx Hidx.
    rewrite <- (findResponse_notGuide rs1 idx Hidx),
            <- (findResponse_notGuide rs2 idx Hidx).
    now rewrite Heq. }
  destruct (check_same rs1 rs2 Hsame textBoxes elapsedTime) as [Hscan Hcheck].
  unfold completionFeedback. rewrite Hcheck. auto.
Qed.

Lemma guide_sign_noninterference_witness :
  Completion.check forestSigns
    (mkResponse 1 (lit "Rex") 5 :: forestResponses) 75
  = Completion.check forestSigns forestResponses 75.
Proof.
  exact (proj1 (proj2
           (guide_sign_noninterference forestSigns
              (mkResponse 1 (lit "Rex") 5 :: forestResponses)
              forestResponses 75 eq_refl))).
Defined.

(** ** The response store *)

Lemma step_keeps_trimmed textBoxes st e :
  Forall trimmedRecord (Dialog.signResponses st) ->
  Forall trimmedRecord (Dialog.signResponses (Dialog.step textBoxes st e)).
Proof.
  intros Hst. destruct e as [idx | value | now | |]; simpl; try assumption.
  - destruct (nth_error textBoxes idx) as [tb |]; [| assumption].
    destruct (additionalInfo tb) as [[| c s] |]; assumption.
  - destruct (Dialog.clickedTextBox st) as [box |]; [| assumption].
    simpl. apply Forall_app. split; [assumption |].
    constructor; [| constructor].
    unfold trimmedRecord. simpl. apply trim_idempotent.
Qed.

Lemma run_keeps_trimmed textBoxes events :
  forall st,
    Forall trimmedRecord (Dialog.signResponses st) ->
    Forall trimmedRecord
      (Dialog.signResponses (fold_left (Dialog.step textBoxes) events st)).
Proof.
  induction events as [| e events IH]; intros st Hst; simpl; [assumption |].
  apply IH, step_keeps_trimmed, Hst.
Qed.

(** C10: after any sequence of dialog events from the initial state, every
    stored record holds a text equal to its own trim, so testing the trimmed
    text for emptiness is testing the text. *)
Theorem stored_responses_trimmed :
  forall (textBoxes : list TextBox) (events : list Dialog.event),
    Forall (fun r =>
              Str.trim (response r) = response r
              /\ Str.nonEmpty (Str.trim (response r))
                 = Str.nonEmpty (response r))
      (Dialog.getSignResponses (Dialog.run textBoxes events)).
Proof.
  intros textBoxes events.
  eapply Forall_impl;
    [| apply (run_keeps_trimmed textBoxes events Dialog.initial); constructor].
  intros r Hr. unfold trimmedRecord in Hr. split; [exact Hr |]. now rewrite Hr.
Qed.

(** * Further properties *)

Local Open Scope R_scope.

(** ** Rounding and noise bounds *)

Lemma round2_error v : v - 0.005 <= round2 v <= v + 0.005.
Proof.
  unfold round2, Math.round.
  pose proof (Zfloor_bound (v * 100 + / 2)) as [Hlo Hhi].
  split; lra.
Qed.

Lemma seededRandom_bounds s : 0 <= seededRandom s < 1.
Proof.
  unfold seededRandom; cbv zeta.
  pose proof (floor_bound (sin s * 10000)). lra.
Qed.

(** ** More about the block generator *)

Section BlockGenerator.
Import PrimFloat.
Local Open Scope float_scope.

(** X1: the paths act as a filter on the generation without paths: the
    same grid cells are visited, and the trees kept are those that
    [isPointInPath] rejects for every path. *)
Theorem generateTreeBlock_paths_filter :
  forall (m : Double.Engine) (fuel : nat) (block : Double.TreeBlock)
         (paths : list Double.Path) (free : list Double.point),
    Double.generateTreeBlock m fuel block [] = Some free ->
    Double.generateTreeBlock m fuel block paths
    = Some (filter (Double.offPaths m paths) free).
Proof. exact generateTreeBlock_filter. Qed.

Lemma generateTreeBlock_paths_filter_witness :
  filter (Double.offPaths Double.reference [Double.crossing])
    [Double.nearTree; Double.edgeTree]
  = [Double.edgeTree]
  /\ Double.generateTreeBlock Double.reference 3 Double.hedge [Double.crossing]
     = Some (filter (Double.offPaths Double.reference [Double.crossing])
               [Double.nearTree; Double.edgeTree]).
Proof.
  split; [vm_compute; reflexivity |].
  apply generateTreeBlock_paths_filter. vm_compute. reflexivity.
Defined.

(** X2: a block whose column loop or row loop does not start has no tree;
    a block whose spacing is absorbed by the rounding of its left edge, or
    of its top edge, keeps the generator in its loop for ever. *)
Theorem generateTreeBlock_empty_block :
  forall (m : Double.Engine) (block : Double.TreeBlock)
         (paths : list Double.Path),
    let spacing := 100 / Double.b_density block in
    let xEnd := Double.b_left block + Double.b_width block in
    let yEnd := Double.b_top block + Double.b_length block in
    ((Double.b_left block <? xEnd) = false ->
     forall fuel, Double.generateTreeBlock m fuel block paths = Some [])
    /\ ((Double.b_top block <? yEnd) = false ->
        forall ts, Double.returns m block paths ts -> ts = [])
    /\ ((Double.b_left block <? xEnd) = true ->
        Double.b_left block + spacing = Double.b_left block ->
        forall fuel, Double.generateTreeBlock m fuel block paths = None)
    /\ ((Double.b_left block <? xEnd) = true ->
        (Double.b_top block <? yEnd) = true ->
        Double.b_top block + spacing = Double.b_top block ->
        forall fuel, Double.generateTreeBlock m fuel block paths = None).
Proof.
  intros m block paths. cbv zeta. split; [| split; [| split]].
  - intros Hc fuel. unfold Double.generateTreeBlock; cbv zeta.
    now rewrite for_loop_skip.
  - intros Hc ts [fuel Hts]. revert Hts.
    unfold Double.generateTreeBlock; cbv zeta.
    destruct (for_loop _ _ _ _ _ _ _) as [st |] eqn:Hloop; [| discriminate].
    intros [= <-]. revert Hloop.
    apply for_loop_inv with (Inv := fun s => Double.trees s = []);
      [| reflexivity].
    intros x s s' Hs. rewrite for_loop_skip by exact Hc. congruence.
  - intros Hc Hx fuel. unfold Double.generateTreeBlock; cbv zeta.
    now rewrite for_loop_stuck.
  - intros Hc Hcy Hy fuel. unfold Double.generateTreeBlock; cbv zeta.
    rewrite for_loop_body_fails; [reflexivity | exact Hc |].
    now apply for_loop_stuck.
Qed.

Lemma generateTreeBlock_empty_block_witness :
  Double.generateTreeBlock Double.reference 0 Double.thin [Double.crossing]
  = Some []
  /\ Double.returns Double.reference Double.flat [Double.crossing] []
  /\ (forall ts,
        Double.returns Double.reference Double.flat [Double.crossing] ts ->
        ts = [])
  /\ Double.generateTreeBlock Double.reference 1000 Double.absorbed [] = None
  /\ Double.generateTreeBlock Double.reference 1000 Double.absorbedRows []
     = None.
Proof.
  split; [| split; [| split; [| split]]].
  - apply (generateTreeBlock_empty_block Double.reference Double.thin).
    vm_compute. reflexivity.
  - exists 2%nat. vm_compute. reflexivity.
  - apply (generateTreeBlock_empty_block Double.reference Double.flat).
    vm_compute. reflexivity.
  - destruct (generateTreeBlock_empty_block Double.reference Double.absorbed [])
      as (_ & _ & Hstuck & _).
    apply Hstuck; vm_compute; reflexivity.
  - destruct (generateTreeBlock_empty_block Double.reference
                Double.absorbedRows [])
      as (_ & _ & _ & Hstuck).
    apply Hstuck; vm_compute; reflexivity.
Defined.

End BlockGenerator.

(** ** More about the border generator *)

(** Collects the rounding and noise bounds of the terms of the goal. *)
Ltac note_bounds :=
  repeat match goal with
    | |- context [round2 ?v] =>
        lazymatch goal with
        | _ : v - 0.005 <= round2 v <= v + 0.005 |- _ => fail
        | _ => pose proof (round2_error v)
        end
    | |- context [seededRandom ?s] =>
        lazymatch goal with
        | _ : 0 <= seededRandom s < 1 |- _ => fail
        | _ => pose proof (seededRandom_bounds s)
        end
    end.

(** Replaces the noise and rounded values by variables, for [lra]. *)
Ltac hide_noise :=
  repeat match goal with
    | H : context [seededRandom ?s] |- _ =>
        let u := fresh "u" in
        remember (seededRandom s) as u eqn:Eu; clear Eu
    end;
  repeat match goal with
    | H : context [round2 ?v] |- _ =>
        let r := fresh "r" in
        remember (round2 v) as r eqn:Er; clear Er
    end.

Lemma borderCells_layers :
  Forall (fun c => (0 <= c_layer c)%Z) borderCells.
Proof.
  apply Forall_forall. intros c Hc.
  assert (H : forallb (fun c => (0 <=? c_layer c)%Z) borderCells = true)
    by (vm_compute; reflexivity).
  rewrite forallb_forall in H. apply Z.leb_le. now apply H.
Qed.

(** X4: the border is a frame: no border tree lies in the interior rectangle
    that starts 50.005 inside the top, left and right world edges and
    250.005 above the bottom one. *)
Theorem generateBorderTrees_frame :
  exists bs,
    generateBorderTrees = Some bs
    /\ List.length bs = 546%nat
    /\ Forall (fun t =>
                 px t <= 50.005 \/ IZR WORLD_WIDTH - 50.005 <= px t
                 \/ py t <= 50.005 \/ IZR WORLD_HEIGHT - 250.005 <= py t) bs.
Proof.
  eexists. split; [exact generateBorderTrees_cells |].
  split; [rewrite length_map; reflexivity |].
  apply Forall_map.
  eapply Forall_impl; [| exact borderCells_layers].
  intros [sd layer along counter] Hl. cbn [c_layer] in Hl.
  apply IZR_le in Hl.
  unfold Border.borderTree, Border.nominalX, Border.nominalY, Border.rangeX,
    Border.rangeY, Border.rand, Border.RANDOM_OFFSET, Border.BOTTOM_RAISE,
    WORLD_WIDTH, WORLD_HEIGHT;
    cbn [c_side c_layer c_along c_counter px py].
  destruct sd; note_bounds.
  - right; right; left. rewrite opp_IZR in *. hide_noise. lra.
  - right; right; right. rewrite !minus_IZR, !plus_IZR in *. hide_noise. lra.
  - left. rewrite opp_IZR in *. hide_noise. lra.
  - right; left. rewrite !plus_IZR in *. hide_noise. lra.
Qed.

(** ** Stepping stones *)




Local Close Scope R_scope.

(** ** Movement and keyboard *)

Local Open Scope R_scope.

(** X8: opposite keys do not cancel: Down wins over Up and Right over Left.
    Without a pressed key the avatar stays, and inside the bounds a tick
    moves it by at most [SPEED] along each axis. *)
Theorem updatePosition_priorities :
  forall (keysPressed : keySet) (prev : position),
    (has keysPressed ArrowDown = true ->
     pos_y (updatePosition keysPressed prev)
     = Math.min (IZR WORLD_HEIGHT - 200) (pos_y prev + SPEED))
    /\ (has keysPressed ArrowRight = true ->
        pos_x (updatePosition keysPressed prev)
        = Math.min (IZR WORLD_WIDTH - 200) (pos_x prev + SPEED))
    /\ (keysPressed = [] -> updatePosition keysPressed prev = prev)
    /\ (inWorldBounds prev ->
        Rabs (pos_x (updatePosition keysPressed prev) - pos_x prev) <= SPEED
        /\ Rabs (pos_y (updatePosition keysPressed prev) - pos_y prev) <= SPEED).
Proof.
  intros keys [x y]. unfold updatePosition; cbn [pos_x pos_y].
  split; [intros ->; reflexivity |].
  split; [intros ->; reflexivity |].
  split; [intros ->; reflexivity |].
  unfold inWorldBounds, WORLD_WIDTH, WORLD_HEIGHT, SPEED; cbn [pos_x pos_y].
  intros [Hx Hy]. unfold Math.min, Math.max.
  split; apply Rabs_le.
  - destruct (has keys ArrowRight); [| destruct (has keys ArrowLeft)].
    + unfold Rmin. destruct (Rle_dec (4000 - 200) (x + 8)); split; lra.
    + unfold Rmax. destruct (Rle_dec 550 (x - 8)); split; lra.
    + split; lra.
  - destruct (has keys ArrowDown); [| destruct (has keys ArrowUp)].
    + unfold Rmin. destruct (Rle_dec (4300 - 200) (y + 8)); split; lra.
    + unfold Rmax. destruct (Rle_dec 650 (y - 8)); split; lra.
    + split; lra.
Qed.

Lemma updatePosition_priorities_witness :
  updatePosition [ArrowUp; ArrowDown; ArrowLeft; ArrowRight] startPosition
  = mkPosition 858 858.
Proof.
  destruct (updatePosition_priorities
              [ArrowUp; ArrowDown; ArrowLeft; ArrowRight] startPosition)
    as (Hy & Hx & _ & _).
  specialize (Hy eq_refl). specialize (Hx eq_refl).
  destruct (updatePosition _ _) as [x y]. cbn [pos_x pos_y] in Hx, Hy.
  subst x y. unfold startPosition, WORLD_WIDTH, WORLD_HEIGHT, SPEED, Math.min.
  cbn [pos_x pos_y]. f_equal; rewrite Rmin_right; lra.
Defined.

Local Close Scope R_scope.

Lemma key_eqb_eq a b : key_eqb a b = true <-> a = b.
Proof. destruct a, b; simpl; split; intros; congruence. Qed.

Lemma key_eqb_refl a : key_eqb a a = true.
Proof. now apply key_eqb_eq. Qed.

Lemma has_add k k' keys :
  has (Keyboard.add k keys) k' = key_eqb k' k || has keys k'.
Proof.
  unfold Keyboard.add. destruct (has keys k) eqn:Hk.
  - destruct (key_eqb k' k) eqn:E; [| reflexivity].
    apply key_eqb_eq in E. subst. now rewrite Hk.
  - unfold has. rewrite existsb_app. simpl.
    rewrite orb_false_r. apply orb_comm.
Qed.

Lemma has_delete k k' keys :
  has (Keyboard.delete k keys) k' = negb (key_eqb k' k) && has keys k'.
Proof.
  unfold Keyboard.delete, has.
  induction keys as [| a keys IH]; simpl; [now rewrite andb_false_r |].
  destruct (key_eqb k a) eqn:Ea; simpl.
  - apply key_eqb_eq in Ea. subst a. rewrite IH.
    destruct (key_eqb k' k); reflexivity.
  - rewrite IH. destruct (key_eqb k' a) eqn:E; simpl; [| reflexivity].
    apply key_eqb_eq in E. subst a.
    destruct (key_eqb k' k) eqn:E'; [| reflexivity].
    apply key_eqb_eq in E'. subst k'. now rewrite key_eqb_refl in Ea.
Qed.

(** X9: the pressed set follows the key events: after a key-down the key is
    pressed, after a key-up it is not, and the other keys keep their state;
    names other than the four arrows change nothing. *)
Theorem keyboard_tracks_keys :
  forall (name : string) (st : Keyboard.state),
    match Keyboard.arrowKey name with
    | Some k =>
        (forall k',
            has (Keyboard.keysPressed (Keyboard.handleKeyDown name st)) k'
            = key_eqb k' k || has (Keyboard.keysPressed st) k')
        /\ (forall k',
               has (Keyboard.keysPressed (Keyboard.handleKeyUp name st)) k'
               = negb (key_eqb k' k) && has (Keyboard.keysPressed st) k')
        /\ Keyboard.facingRight (Keyboard.handleKeyUp name st)
           = Keyboard.facingRight st
    | None =>
        Keyboard.handleKeyDown name st = st
        /\ Keyboard.handleKeyUp name st = st
    end.
Proof.
  intros name st. unfold Keyboard.handleKeyDown, Keyboard.handleKeyUp.
  destruct (Keyboard.arrowKey name) as [k |]; [| split; reflexivity].
  cbn [Keyboard.keysPressed Keyboard.facingRight].
  split; [intros k'; apply has_add |].
  split; [intros k'; apply has_delete | reflexivity].
Qed.

Local Open Scope R_scope.

(** X10: with Right held, pressing Left turns the avatar to the left while the
    next tick still moves it to the right. *)
Theorem facing_can_oppose_movement :
  forall (st : Keyboard.state) (prev : position),
    let st' :=
      Keyboard.handleKeyDown "ArrowLeft"
        (Keyboard.handleKeyDown "ArrowRight" st) in
    Keyboard.facingRight st' = false
    /\ pos_x (updatePosition (Keyboard.keysPressed st') prev)
       = Math.min (IZR WORLD_WIDTH - 200) (pos_x prev + SPEED)
    /\ (pos_x prev <= IZR WORLD_WIDTH - 200 ->
        pos_x prev <= pos_x (updatePosition (Keyboard.keysPressed st') prev)).
Proof.
  intros st prev. cbv zeta.
  assert (Hr : has (Keyboard.keysPressed
                      (Keyboard.handleKeyDown "ArrowLeft"
                         (Keyboard.handleKeyDown "ArrowRight" st)))
                   ArrowRight = true).
  { unfold Keyboard.handleKeyDown.
    change (Keyboard.arrowKey "ArrowRight") with (Some ArrowRight).
    change (Keyboard.arrowKey "ArrowLeft") with (Some ArrowLeft).
    cbn [Keyboard.keysPressed]. rewrite !has_add. reflexivity. }
  split; [reflexivity |].
  assert (Hx : pos_x (updatePosition
                        (Keyboard.keysPressed
                           (Keyboard.handleKeyDown "ArrowLeft"
                              (Keyboard.handleKeyDown "ArrowRight" st))) prev)
               = Math.min (IZR WORLD_WIDTH - 200) (pos_x prev + SPEED)).
  { unfold updatePosition; cbn [pos_x]. now rewrite Hr. }
  split; [exact Hx |].
  intros Hb. rewrite Hx. unfold Math.min, SPEED.
  apply Rmin_glb; lra.
Qed.

Local Close Scope R_scope.

(** ** The dialog *)

Lemma findResponse_app rs more idx :
  findResponse (rs ++ more) idx
  = match findResponse rs idx with
    | Some r => Some r
    | None => findResponse more idx
    end.
Proof.
  unfold findResponse. induction rs as [| r rs IH]; simpl; [reflexivity |].
  destruct (index r =? idx); [reflexivity | exact IH].
Qed.

Lemma step_extends textBoxes st e :
  Dialog.signResponses (Dialog.step textBoxes st e) = Dialog.signResponses st
  \/ exists box now,
       e = Dialog.Submit now /\ Dialog.clickedTextBox st = Some box
       /\ Dialog.signResponses (Dialog.step textBoxes st e)
          = Dialog.signResponses st
            ++ [mkResponse (Dialog.clickedIndex box)
                  (Str.trim (Dialog.currentResponse st)) now].
Proof.
  destruct e as [idx | value | now | |]; simpl; auto.
  - destruct (nth_error textBoxes idx) as [tb |]; [| now left].
    destruct (additionalInfo tb) as [[| c s] |]; now left.
  - destruct (Dialog.clickedTextBox st) as [box |]; [| now left].
    right. exists box, now. auto.
Qed.

(** X11: the first submission for a sign is final: once a record is stored for
    a sign, no later event changes what the lookup returns for it, so a
    blank first submission leaves the sign unanswered for good. *)
Theorem first_submission_final :
  forall (textBoxes : list TextBox) (before after : list Dialog.event)
         (idx : nat) (r : responseRecord),
    findResponse (Dialog.getSignResponses (Dialog.run textBoxes before)) idx
    = Some r ->
    findResponse
      (Dialog.getSignResponses (Dialog.run textBoxes (before ++ after))) idx
    = Some r
    /\ answered
         (Dialog.getSignResponses (Dialog.run textBoxes (before ++ after))) idx
       = Str.nonEmpty (Str.trim (response r)).
Proof.
  intros textBoxes before after idx r.
  unfold Dialog.run, Dialog.getSignResponses. rewrite fold_left_app.
  generalize (fold_left (Dialog.step textBoxes) before Dialog.initial).
  intros st Hst.
  assert (H : findResponse
                (Dialog.signResponses
                   (fold_left (Dialog.step textBoxes) after st)) idx
              = Some r).
  { revert st Hst. induction after as [| e after IH]; intros st Hst; simpl;
      [exact Hst |].
    apply IH.
    destruct (step_extends textBoxes st e) as [-> | (box & now & _ & _ & ->)];
      [exact Hst |].
    now rewrite findResponse_app, Hst. }
  split; [exact H |]. unfold answered. now rewrite H.
Qed.

Lemma first_submission_final_witness :
  answered
    (Dialog.getSignResponses
       (Dialog.run forestSigns
          ([Dialog.ClickSign 3; Dialog.Submit 1]
           ++ [Dialog.ClickSign 3; Dialog.ChangeInput (lit "a dragon");
               Dialog.Submit 2])))
    3
  = false.
Proof.
  exact (proj2
           (first_submission_final forestSigns
              [Dialog.ClickSign 3; Dialog.Submit 1]
              [Dialog.ClickSign 3; Dialog.ChangeInput (lit "a dragon");
               Dialog.Submit 2]
              3 (mkResponse 3 [] 1) eq_refl)).
Defined.

(** X12: the guide's name is never blank: after any events it is non-empty and
    equal to its own trim, and only a submission on sign 1 changes it. *)
Theorem dogName_never_blank :
  forall (textBoxes : list TextBox) (events : list Dialog.event),
    let st := Dialog.run textBoxes events in
    Str.nonEmpty (Dialog.dogName st) = true
    /\ Str.trim (Dialog.dogName st) = Dialog.dogName st
    /\ (forall e,
          Dialog.dogName (Dialog.step textBoxes st e) <> Dialog.dogName st ->
          exists now box,
            e = Dialog.Submit now /\ Dialog.clickedTextBox st = Some box
            /\ Dialog.clickedIndex box = 1
            /\ Dialog.dogName (Dialog.step textBoxes st e)
               = Str.trim (Dialog.currentResponse st)).
Proof.
  intros textBoxes events. cbv zeta. split; [| split].
  - unfold Dialog.run.
    assert (H : forall st,
               Str.nonEmpty (Dialog.dogName st) = true ->
               Str.nonEmpty
                 (Dialog.dogName (fold_left (Dialog.step textBoxes) events st))
               = true).
    { induction events as [| e events IH]; intros st Hst; simpl; [exact Hst |].
      apply IH. destruct e as [idx | value | now | |]; simpl; try exact Hst.
      - destruct (nth_error textBoxes idx) as [tb |]; [| exact Hst].
        destruct (additionalInfo tb) as [[| c s] |]; exact Hst.
      - destruct (Dialog.clickedTextBox st) as [box |]; [| exact Hst].
        simpl. destruct (Dialog.clickedIndex box =? 1); simpl; [| exact Hst].
        destruct (Str.nonEmpty (Str.trim (Dialog.currentResponse st))) eqn:E;
          [exact E | exact Hst]. }
    apply H. reflexivity.
  - unfold Dialog.run.
    assert (H : forall st,
               Str.trim (Dialog.dogName st) = Dialog.dogName st ->
               Str.trim
                 (Dialog.dogName (fold_left (Dialog.step textBoxes) events st))
               = Dialog.dogName (fold_left (Dialog.step textBoxes) events st)).
    { induction events as [| e events IH]; intros st Hst; simpl; [exact Hst |].
      apply IH. destruct e as [idx | value | now | |]; simpl; try exact Hst.
      - destruct (nth_error textBoxes idx) as [tb |]; [| exact Hst].
        destruct (additionalInfo tb) as [[| c s] |]; exact Hst.
      - destruct (Dialog.clickedTextBox st) as [box |]; [| exact Hst].
        simpl. destruct (_ && _); [apply trim_idempotent | exact Hst]. }
    apply H. reflexivity.
  - generalize (Dialog.run textBoxes events). intros st e Hne.
    destruct e as [idx | value | now | |]; simpl in Hne;
      try (exfalso; apply Hne; reflexivity).
    + exfalso. apply Hne.
      destruct (nth_error textBoxes idx) as [tb |]; [| reflexivity].
      destruct (additionalInfo tb) as [[| c s] |]; reflexivity.
    + simpl. destruct (Dialog.clickedTextBox st) as [box |];
        [| exfalso; apply Hne; reflexivity].
      simpl in *. destruct (Dialog.clickedIndex box =? 1) eqn:E1; simpl in *;
        [| exfalso; apply Hne; reflexivity].
      destruct (Str.nonEmpty (Str.trim (Dialog.currentResponse st)));
        [| exfalso; apply Hne; reflexivity].
      apply Nat.eqb_eq in E1. exists now, box. auto.
Qed.

(** X13: closing the dialog by its overlay keeps the draft, Cancel discards it:
    the next submission, on whichever sign is opened, stores the kept
    draft. *)
Theorem overlay_close_keeps_draft :
  forall (textBoxes : list TextBox) (st : Dialog.state) (idx : nat)
         (tb : TextBox) (c : N) (s : jsstring) (now : Z),
    nth_error textBoxes idx = Some tb ->
    additionalInfo tb = Some (c :: s) ->
    Dialog.signResponses
      (fold_left (Dialog.step textBoxes)
         [Dialog.CloseDialog; Dialog.ClickSign idx; Dialog.Submit now] st)
    = Dialog.signResponses st
      ++ [mkResponse idx (Str.trim (Dialog.currentResponse st)) now]
    /\ Dialog.signResponses
         (fold_left (Dialog.step textBoxes)
            [Dialog.Cancel; Dialog.ClickSign idx; Dialog.Submit now] st)
       = Dialog.signResponses st ++ [mkResponse idx [] now].
Proof.
  intros textBoxes st idx tb c s now Hn Hinfo.
  simpl. rewrite Hn, Hinfo. simpl. split; reflexivity.
Qed.

Lemma overlay_close_keeps_draft_witness :
  Dialog.getSignResponses
    (Dialog.run forestSigns
       [Dialog.ClickSign 3; Dialog.ChangeInput (lit "a dragon");
        Dialog.CloseDialog; Dialog.ClickSign 6; Dialog.Submit 9])
  = [mkResponse 6 (lit "a dragon") 9].
Proof.
  exact (proj1
           (overlay_close_keeps_draft forestSigns
              (Dialog.run forestSigns
                 [Dialog.ClickSign 3; Dialog.ChangeInput (lit "a dragon")])
              6 (taskSign "Agent Option 1") 87%N
              (lit "rite below") 9 eq_refl eq_refl)).
Defined.

Lemma reachable_dialog_sign textBoxes st :
  SignView.reachable textBoxes st ->
  (forall box,
      Dialog.clickedTextBox st = Some box ->
      exists tb,
        nth_error textBoxes (Dialog.clickedIndex box) = Some tb
        /\ Str.orElse (additionalInfo tb) [] <> []
        /\ Dialog.clickedHasInput box = hasInput tb)
  /\ Forall (fun r => answerable textBoxes (index r)) (Dialog.signResponses st).
Proof.
  induction 1 as [| st e _ [IHbox IHrs] Hen].
  - split; [discriminate | constructor].
  - destruct e as [idx | value | now | |]; simpl in *.
    + destruct (nth_error textBoxes idx) as [tb |] eqn:Hn; [| now split].
      destruct (additionalInfo tb) as [[| c s] |] eqn:Hi; try now split.
      simpl. split; [| exact IHrs].
      intros box [= <-]. simpl. exists tb. rewrite Hi. simpl.
      repeat split; auto. discriminate.
    + now split.
    + unfold SignView.inputShown in Hen.
      destruct (Dialog.clickedTextBox st) as [box |]; [| discriminate].
      simpl. split; [discriminate |].
      apply Forall_app. split; [exact IHrs |].
      constructor; [| constructor]. simpl.
      destruct (IHbox box eq_refl) as (tb & Hn & Hinfo & Hhi).
      exists tb. repeat split; auto.
      rewrite <- Hhi. destruct (Dialog.clickedHasInput box) as [[|] |];
        congruence.
    + split; [discriminate | exact IHrs].
    + split; [discriminate | exact IHrs].
Qed.

(** X14: through the rendered controls a response is only ever stored for a sign
    that exists, has additional information and offers a response box. *)
Theorem responses_only_for_answerable_signs :
  forall (textBoxes : list TextBox) (st : Dialog.state),
    SignView.reachable textBoxes st ->
    Forall (fun r => answerable textBoxes (index r))
      (Dialog.getSignResponses st).
Proof.
  intros textBoxes st Hst. now apply reachable_dialog_sign.
Qed.

Lemma responses_only_for_answerable_signs_witness :
  answerable forestSigns 3.
Proof.
  assert (Hr : SignView.reachable forestSigns
                 (Dialog.step forestSigns
                    (Dialog.step forestSigns Dialog.initial (Dialog.ClickSign 3))
                    (Dialog.Submit 1))).
  { apply SignView.reach_step; [| reflexivity].
    apply SignView.reach_step; [apply SignView.reach_initial | reflexivity]. }
  pose proof (responses_only_for_answerable_signs forestSigns _ Hr) as Hall.
  exact (Forall_inv Hall).
Defined.

(** ** Rendering against the completion check *)

Lemma isCompleted_satisfied signResponses idx :
  SignView.isCompleted signResponses idx = satisfied signResponses idx.
Proof. reflexivity. Qed.

(** X15: the completion check succeeds exactly when every sign that has a
    grading function, the guide-naming sign apart, is rendered as
    completed. *)
Theorem check_succeeds_iff_signs_dimmed :
  forall (textBoxes : list TextBox) (signResponses : list responseRecord)
         (elapsedTime : nat),
    Completion.check textBoxes signResponses elapsedTime
    = Completion.Complete (formatTime elapsedTime)
        (Completion.allResponses textBoxes signResponses)
    <-> (forall idx tb,
            nth_error textBoxes idx = Some tb -> hasGrading tb = true ->
            idx <> 1 -> SignView.isCompleted signResponses idx = true).
Proof.
  intros textBoxes signResponses elapsedTime. rewrite check_cases. split.
  - intros Hc idx tb Hn Hg H1. rewrite isCompleted_satisfied.
    destruct (satisfied signResponses idx) eqn:Hs; [reflexivity |].
    assert (Hin : In idx (Completion.missingResponses
                            (Completion.scan textBoxes signResponses))).
    { apply In_missingResponses. split; [| exact Hs]. exists tb. auto. }
    destruct (Completion.missingResponses _); [contradiction | discriminate].
  - intros Hall.
    destruct (Completion.missingResponses _) as [| idx rest] eqn:Hm;
      [reflexivity |].
    assert (Hin : In idx (Completion.missingResponses
                            (Completion.scan textBoxes signResponses)))
      by (rewrite Hm; now left).
    apply In_missingResponses in Hin.
    destruct Hin as [(tb & Hn & Hg & Hb) Hs].
    rewrite <- isCompleted_satisfied, (Hall idx tb Hn Hg Hb) in Hs.
    discriminate.
Qed.

Lemma find_Forall {A} (P : A -> Prop) (f : A -> bool) (l : list A) (a : A) :
  Forall P l -> find f l = Some a -> P a.
Proof.
  intros Hall Hf. apply find_some in Hf. destruct Hf as [Hin _].
  rewrite Forall_forall in Hall. now apply Hall.
Qed.

(** X16: outside the agent pair a sign is dimmed exactly when it displays a
    response, in every state the dialog events can produce. *)
Theorem dimmed_iff_response_shown :
  forall (textBoxes : list TextBox) (events : list Dialog.event) (idx : nat),
    includes SignView.agentTaskIndices idx = false ->
    let rs := Dialog.getSignResponses (Dialog.run textBoxes events) in
    SignView.isCompleted rs idx = true
    <-> exists shown, SignView.responseText rs idx = Some shown.
Proof.
  intros textBoxes events idx Hidx. cbv zeta.
  unfold SignView.isCompleted, SignView.responseText. rewrite Hidx.
  pose proof (run_keeps_trimmed textBoxes events Dialog.initial
                (Forall_nil _)) as Hall.
  fold (Dialog.run textBoxes events) in Hall.
  unfold Dialog.getSignResponses.
  destruct (findResponse _ idx) as [r |] eqn:Hf.
  - unfold findResponse in Hf.
    pose proof (find_Forall _ _ _ _ Hall Hf) as Hr.
    unfold trimmedRecord in Hr. rewrite Hr.
    destruct (response r); simpl; split; intros H; try discriminate; eauto.
    destruct H as [shown H]. discriminate.
  - split; [discriminate | intros [shown H]; discriminate].
Qed.

Lemma dimmed_iff_response_shown_witness :
  SignView.isCompleted
    (Dialog.getSignResponses
       (Dialog.run forestSigns
          [Dialog.ClickSign 3; Dialog.ChangeInput (lit " a dragon ");
           Dialog.Submit 1])) 3 = true.
Proof.
  apply (dimmed_iff_response_shown forestSigns
           [Dialog.ClickSign 3; Dialog.ChangeInput (lit " a dragon ");
            Dialog.Submit 1] 3 eq_refl).
  exists (lit "a dragon"). reflexivity.
Defined.

(** ** What the grading functions cannot change *)

Lemma taskName_same a b : sameButGrader a b ->
  Completion.taskName a = Completion.taskName b.
Proof. intros (Ht & Hti & _). unfold Completion.taskName. now rewrite Ht, Hti. Qed.

Lemma withGrading_same (a b : list TextBox) :
  Forall2 sameButGrader a b ->
  forall start,
    Forall2 (fun x y => fst x = fst y /\ sameButGrader (snd x) (snd y))
      (filter (fun it => hasGrading (snd it))
         (combine (seq start (List.length a)) a))
      (filter (fun it => hasGrading (snd it))
         (combine (seq start (List.length b)) b)).
Proof.
  induction 1 as [| x y a b Hxy _ IH]; intros start; simpl; [constructor |].
  destruct Hxy as (Ht & Hti & Hg). rewrite <- Hg.
  destruct (hasGrading x) eqn:Hx; [| apply IH].
  constructor; [| apply IH]. simpl.
  split; [reflexivity |]. split; [exact Ht |]. split; [exact Hti |].
  congruence.
Qed.

Lemma flat_map_same {A B C} (f : A -> list C) (g : B -> list C)
    (R : A -> B -> Prop) (l : list A) (l' : list B) :
  (forall x y, R x y -> f x = g y) -> Forall2 R l l' ->
  flat_map f l = flat_map g l'.
Proof.
  intros Hfg. induction 1 as [| x y l l' Hxy _ IH]; simpl; [reflexivity |].
  now rewrite (Hfg x y Hxy), IH.
Qed.

Lemma nth_error_same (a b : list TextBox) idx :
  Forall2 sameButGrader a b ->
  match nth_error a idx, nth_error b idx with
  | Some x, Some y => sameButGrader x y
  | None, None => True
  | _, _ => False
  end.
Proof.
  intros H. revert idx. induction H as [| x y a b Hxy _ IH]; intros [| idx];
    simpl; auto; apply IH.
Qed.

(** X17: what the completion button shows does not depend on what the grading
    functions compute: signs that differ only in their grading functions'
    results give the same outcome and the same message. *)
Theorem feedback_never_shown :
  forall (textBoxes textBoxes' : list TextBox)
         (signResponses : list responseRecord) (elapsedTime : nat),
    Forall2 sameButGrader textBoxes textBoxes' ->
    Completion.check textBoxes signResponses elapsedTime
    = Completion.check textBoxes' signResponses elapsedTime
    /\ completionFeedback textBoxes signResponses elapsedTime
       = completionFeedback textBoxes' signResponses elapsedTime.
Proof.
  intros tbs tbs' rs t Hsame.
  pose proof (withGrading_same tbs tbs' Hsame 0) as Hwg.
  fold (indexed tbs) (indexed tbs') in Hwg.
  fold (Completion.textBoxesWithGrading tbs)
       (Completion.textBoxesWithGrading tbs') in Hwg.
  assert (Hmiss : Completion.missingResponses (Completion.scan tbs rs)
                  = Completion.missingResponses (Completion.scan tbs' rs)).
  { rewrite !scan_lists. cbn [Completion.missingResponses].
    apply flat_map_same with (2 := Hwg).
    intros [i x] [j y] [Hij _]. simpl in Hij. subst j. reflexivity. }
  assert (Hall : Completion.allResponses tbs rs = Completion.allResponses tbs' rs).
  { rewrite !allResponses_list. apply flat_map_same with (2 := Hwg).
    intros [i x] [j y] [Hij Hxy]. simpl in Hij, Hxy. subst j.
    unfold respondedOf. simpl fst. simpl snd.
    now rewrite (taskName_same x y Hxy). }
  assert (Hnames : forall missing,
             Completion.missingTaskNames tbs missing
             = Completion.missingTaskNames tbs' missing).
  { intros missing. rewrite !missingTaskNames_list. f_equal.
    - assert (Hp : agentPairName tbs = agentPairName tbs').
      { unfold agentPairName.
        pose proof (nth_error_same tbs tbs' 6 Hsame) as H6.
        pose proof (nth_error_same tbs tbs' 7 Hsame) as H7.
        destruct (nth_error tbs 6) as [x6 |], (nth_error tbs' 6) as [y6 |];
          try contradiction;
          destruct (nth_error tbs 7) as [x7 |], (nth_error tbs' 7) as [y7 |];
          try contradiction; simpl;
          repeat match goal with
            | H : sameButGrader _ _ |- _ =>
                destruct H as (_ & -> & _)
            end; reflexivity. }
      now rewrite Hp.
    - apply flat_map_ext. intros idx. unfold otherName.
      pose proof (nth_error_same tbs tbs' idx Hsame) as Hn.
      destruct (nth_error tbs idx) as [x |], (nth_error tbs' idx) as [y |];
        try contradiction; [| reflexivity].
      now rewrite (taskName_same x y Hn). }
  assert (Hcheck : Completion.check tbs rs t = Completion.check tbs' rs t).
  { rewrite !check_cases, <- Hmiss, Hall, Hnames. reflexivity. }
  split; [exact Hcheck |]. unfold completionFeedback. now rewrite Hcheck.
Qed.

Lemma feedback_never_shown_witness :
  completionFeedback
    [signA; mkTextBox (lit "Task B") 18 750 500 (Some (lit "Do B"))
              (Some praise) (Some true) None]
    [mkResponse 0 (lit "y") 20] 75
  = completionFeedback [signA; signB] [mkResponse 0 (lit "y") 20] 75.
Proof.
  apply feedback_never_shown.
  constructor; [repeat split |].
  constructor; [repeat split | constructor].
Defined.

(** ** Growing the sign list *)

Lemma required_app textBoxes tb idx :
  required (textBoxes ++ [tb]) idx
  <-> required textBoxes idx
      \/ (idx = List.length textBoxes /\ hasGrading tb = true
          /\ idx <> Completion.beansRenameIndex).
Proof.
  unfold required. split.
  - intros (x & Hn & Hg & Hb).
    destruct (Nat.lt_ge_cases idx (List.length textBoxes)) as [Hlt | Hge].
    + left. exists x. rewrite nth_error_app1 in Hn by assumption. auto.
    + right. rewrite nth_error_app2 in Hn by assumption.
      destruct (idx - List.length textBoxes) as [| k] eqn:Hk; simpl in Hn.
      * injection Hn as <-. split; [lia | auto].
      * destruct k; discriminate.
  - intros [(x & Hn & Hg & Hb) | (-> & Hg & Hb)].
    + exists x. split; [| auto].
      rewrite nth_error_app1; [exact Hn |].
      apply nth_error_Some. congruence.
    + exists tb. split; [| auto].
      rewrite nth_error_app2, Nat.sub_diag by lia. reflexivity.
Qed.

(** X18: [addTextBox] appends: the signs already there keep their index and
    their place in the missing list, and the new sign is missing exactly
    when it is required and not yet satisfied. *)
Theorem addTextBox_keeps_status :
  forall (c : config) (textBox : TextBox)
         (signResponses : list responseRecord) (idx : nat),
    (forall i, i < List.length (cfg_textBoxes c) ->
               nth_error (cfg_textBoxes (addTextBox textBox c)) i
               = nth_error (cfg_textBoxes c) i)
    /\ nth_error (cfg_textBoxes (addTextBox textBox c))
         (List.length (cfg_textBoxes c)) = Some textBox
    /\ (In idx (Completion.missingResponses
                  (Completion.scan (cfg_textBoxes (addTextBox textBox c))
                     signResponses))
        <-> In idx (Completion.missingResponses
                      (Completion.scan (cfg_textBoxes c) signResponses))
            \/ (idx = List.length (cfg_textBoxes c)
                /\ hasGrading textBox = true
                /\ idx <> 1 /\ satisfied signResponses idx = false)).
Proof.
  intros c textBox rs idx. cbn [addTextBox cfg_textBoxes].
  split; [intros i Hi; now apply nth_error_app1 |].
  split; [rewrite nth_error_app2, Nat.sub_diag by lia; reflexivity |].
  rewrite !In_missingResponses, required_app.
  unfold Completion.beansRenameIndex. tauto.
Qed.

(** ** The list of missing tasks *)

Lemma otherName_length textBoxes signResponses idx :
  In idx (Completion.missingResponses (Completion.scan textBoxes signResponses)) ->
  List.length (otherName textBoxes idx)
  = if includes Completion.agentTaskIndices idx then 0 else 1.
Proof.
  intros Hin. apply In_missingResponses in Hin.
  destruct Hin as [(tb & Hn & _) _]. unfold otherName. rewrite Hn.
  destruct (includes _ idx); reflexivity.
Qed.

(** X19: a failed check always names at least one task, and never more tasks
    than there are missing signs: the agent pair is named once. *)
Theorem incomplete_names_some_task :
  forall (textBoxes : list TextBox) (signResponses : list responseRecord)
         (elapsedTime : nat) (names : list jsstring),
    Completion.check textBoxes signResponses elapsedTime
    = Completion.Incomplete names ->
    let missing :=
      Completion.missingResponses (Completion.scan textBoxes signResponses) in
    1 <= List.length names <= List.length missing
    /\ List.length names
       = (if existsb (includes Completion.agentTaskIndices) missing
          then 1 else 0)
         + List.length
             (filter (fun idx => negb (includes Completion.agentTaskIndices idx))
                missing).
Proof.
  intros tbs rs t names. rewrite check_cases. cbv zeta.
  assert (Hlen : forall l,
             (forall idx, In idx l ->
                In idx (Completion.missingResponses (Completion.scan tbs rs))) ->
             List.length (flat_map (otherName tbs) l)
             = List.length
                 (filter
                    (fun idx => negb (includes Completion.agentTaskIndices idx))
                    l)).
  { induction l as [| idx l IH]; intros Hl; cbn [flat_map filter];
      [reflexivity |].
    rewrite length_app, (otherName_length tbs rs idx) by (apply Hl; now left).
    rewrite IH by (intros i Hi; apply Hl; now right).
    destruct (includes _ idx); reflexivity. }
  destruct (Completion.missingResponses (Completion.scan tbs rs))
    as [| idx rest] eqn:Hm; [discriminate |].
  intros [= <-]. rewrite missingTaskNames_list, length_app.
  rewrite Hlen by auto.
  set (missing := idx :: rest).
  assert (Hsplit : List.length missing
                   = List.length (filter (includes Completion.agentTaskIndices)
                                    missing)
                     + List.length
                         (filter (fun i => negb (includes
                                     Completion.agentTaskIndices i)) missing)).
  { clearbody missing. clear. induction missing as [| i l IH];
      cbn [filter]; [reflexivity |].
    destruct (includes _ i); cbn [negb List.length]; lia. }
  assert (Hany : existsb (includes Completion.agentTaskIndices) missing = true
                 <-> 1 <= List.length
                            (filter (includes Completion.agentTaskIndices)
                               missing)).
  { clearbody missing. clear. induction missing as [| i l IH];
      cbn [filter existsb].
    - cbn [List.length]. split; [discriminate | lia].
    - destruct (includes _ i); cbn [orb List.length];
        [split; [lia | reflexivity] | exact IH]. }
  assert (Hpos : 1 <= List.length missing) by (unfold missing; simpl; lia).
  clearbody missing.
  destruct (existsb _ missing) eqn:Hex; cbn [List.length].
  - assert (1 <= List.length
                   (filter (includes Completion.agentTaskIndices) missing))
      by now apply Hany.
    lia.
  - assert (Hz : List.length
                   (filter (includes Completion.agentTaskIndices) missing) = 0).
    { destruct (List.length (filter _ missing)) eqn:E; [reflexivity |].
      assert (false = true) by (apply Hany; lia).
      discriminate. }
    lia.
Qed.

Lemma incomplete_names_some_task_witness :
  List.length [lit "Task A"] = 1.
Proof.
  pose proof (incomplete_names_some_task [signA; signB]
                [mkResponse 1 (lit "x") 10] 75 [lit "Task A"] eq_refl) as H.
  cbv zeta in H. exact (Nat.le_antisymm _ _ (proj2 (proj1 H)) (proj1 (proj1 H))).
Defined.

(** ** The timer display *)

(** X20: below 100 minutes the display is five units long, [MM:SS] with a colon
    in the middle, and reads back as the elapsed seconds, so no two times
    look the same. *)
Theorem formatTime_roundtrip :
  forall seconds : nat,
    seconds < 100 * 60 ->
    List.length (formatTime seconds) = 5
    /\ nth_error (formatTime seconds) 2 = Some 58%N
    /\ readTime (formatTime seconds) = seconds
    /\ (forall other,
          other < 100 * 60 -> formatTime other = formatTime seconds ->
          other = seconds).
Proof.
  assert (Hall : forallb
                   (fun n =>
                      (List.length (formatTime n) =? 5)
                      && match nth_error (formatTime n) 2 with
                         | Some c => (c =? 58)%N
                         | None => false
                         end
                      && (readTime (formatTime n) =? n))
                   (seq 0 (100 * 60)) = true)
    by (vm_compute; reflexivity).
  rewrite forallb_forall in Hall.
  assert (Hone : forall n, n < 100 * 60 ->
                   List.length (formatTime n) = 5
                   /\ nth_error (formatTime n) 2 = Some 58%N
                   /\ readTime (formatTime n) = n).
  { intros n Hn. specialize (Hall n). rewrite in_seq in Hall.
    specialize (Hall ltac:(lia)).
    rewrite !andb_true_iff in Hall. destruct Hall as [[Hl Hc] Hr].
    apply Nat.eqb_eq in Hl, Hr.
    destruct (nth_error (formatTime n) 2) as [c |]; [| discriminate].
    apply N.eqb_eq in Hc. subst c. auto. }
  intros seconds Hs. destruct (Hone seconds Hs) as (Hl & Hc & Hr).
  repeat split; auto.
  intros other Ho Heq. destruct (Hone other Ho) as (_ & _ & Hr').
  congruence.
Qed.

Lemma formatTime_roundtrip_witness :
  readTime (formatTime 3599) = 3599.
Proof.
  exact (proj1 (proj2 (proj2 (formatTime_roundtrip 3599 ltac:(lia))))).
Defined.

(** ** Sign layout *)

Lemma split_cons_line s : exists line rest, SignLayout.split s = line :: rest.
Proof.
  induction s as [| c s (line & rest & IH)]; simpl; [eauto |].
  destruct (c =? 10)%N; [eauto |]. rewrite IH. eauto.
Qed.

(** X21: splitting into lines loses nothing: joining the lines with line feeds
    gives the text back, no line holds a line feed, there is always a first
    line, and it is the one the completion check uses as a task name. *)
Theorem split_lines_roundtrip :
  forall s : jsstring,
    Str.join [10%N] (SignLayout.split s) = s
    /\ Forall (fun line => ~ In 10%N line) (SignLayout.split s)
    /\ hd_error (SignLayout.split s) = Some (Str.firstLine s)
    /\ 1 <= List.length (SignLayout.split s).
Proof.
  induction s as [| c s (Hjoin & Hno & Hhd & Hlen)].
  - simpl. split; [reflexivity |].
    split; [constructor; [intros [] | constructor] |].
    split; [reflexivity | lia].
  - cbn [SignLayout.split]. unfold Str.firstLine in *. cbn [Str.takeWhile].
    destruct (split_cons_line s) as (line & rest & Hs).
    rewrite Hs in *. destruct (c =? 10)%N eqn:Ec; cbn [negb].
    + apply N.eqb_eq in Ec. subst c.
      split; [| split; [| split]].
      * change (Str.join [10%N] ([] :: line :: rest))
          with ([] ++ [10%N] ++ Str.join [10%N] (line :: rest)).
        now rewrite Hjoin.
      * constructor; [intros [] | exact Hno].
      * reflexivity.
      * simpl. lia.
    + apply N.eqb_neq in Ec. cbn [hd_error] in Hhd. injection Hhd as Hline.
      split; [| split; [| split]].
      * destruct rest as [| r rest].
        -- cbn [Str.join] in *. now rewrite Hjoin.
        -- change (Str.join [10%N] ((c :: line) :: r :: rest))
             with ((c :: line) ++ [10%N] ++ Str.join [10%N] (r :: rest)).
           change (Str.join [10%N] (line :: r :: rest))
             with (line ++ [10%N] ++ Str.join [10%N] (r :: rest)) in Hjoin.
           now rewrite <- Hjoin.
      * inversion Hno as [| ? ? Hl Hr]; subst.
        constructor; [| exact Hr]. intros [H | H]; [congruence | now apply Hl].
      * cbn [hd_error]. now rewrite Hline.
      * simpl. lia.
Qed.

Lemma longest_fold (ls : list jsstring) :
  forall acc line : jsstring,
    (In line ls \/ List.length line <= List.length acc) ->
    List.length line
    <= List.length
         (fold_left
            (fun longest l =>
               if List.length longest <? List.length l then l else longest)
            ls acc).
Proof.
  induction ls as [| l ls IH]; intros acc line H; simpl.
  - destruct H as [[] | H]; exact H.
  - apply IH. destruct H as [[-> | H] | H]; [right | now left | right].
    + destruct (Nat.ltb_spec (List.length acc) (List.length line)); lia.
    + destruct (Nat.ltb_spec (List.length acc) (List.length l)); lia.
Qed.

Local Open Scope R_scope.

(** X22: the estimated sign is wide enough for every line of the sign and of the
    shown response, and tall enough for all of them plus the separator. *)
Theorem sign_fits_its_lines :
  forall (textBox : TextBox) (responseText : option jsstring),
    0 <= fontSize textBox ->
    (forall line,
        In line (SignLayout.allLines textBox responseText) ->
        INR (List.length line) * fontSize textBox * 0.6
        + SignLayout.signPadding textBox * 2
        <= SignLayout.signWidth textBox responseText)
    /\ SignLayout.lineHeight textBox
         * INR (List.length (SignLayout.allLines textBox responseText))
       + SignLayout.signPadding textBox
       <= SignLayout.signHeight textBox responseText
    /\ SignLayout.lineHeight textBox + SignLayout.signPadding textBox
       <= SignLayout.signHeight textBox None.
Proof.
  intros textBox responseText Hf. split; [| split].
  - intros line Hin.
    unfold SignLayout.signWidth, SignLayout.textWidth, SignLayout.maxLineLength.
    assert (Hle : (List.length line
                   <= List.length
                        (SignLayout.longestLine
                           (SignLayout.allLines textBox responseText)))%nat)
      by (apply longest_fold; now left).
    apply le_INR in Hle.
    apply Rplus_le_compat_r.
    apply Rmult_le_compat_r; [lra |]. apply Rmult_le_compat_r; assumption.
  - unfold SignLayout.signHeight, SignLayout.totalLines, SignLayout.allLines,
      SignLayout.lineHeight.
    rewrite length_app. apply Rplus_le_compat_r.
    apply Rmult_le_compat_l; [lra |]. apply le_INR.
    unfold SignLayout.shown, SignLayout.responseLines.
    destruct responseText as [[| c s] |]; simpl; lia.
  - unfold SignLayout.signHeight, SignLayout.totalLines, SignLayout.lineHeight,
      SignLayout.lines. cbn [SignLayout.shown].
    assert (Hlen : (1 <= List.length (SignLayout.split (text textBox)))%nat).
    { destruct (split_cons_line (text textBox)) as (line & rest & ->).
      simpl. lia. }
    apply Rplus_le_compat_r. rewrite Nat.add_0_r.
    apply le_INR in Hlen. simpl INR in Hlen.
    assert (0 <= fontSize textBox * 1.3) by lra. nra.
Qed.

Lemma sign_fits_its_lines_witness :
  INR (List.length (lit "Task A")) * fontSize signA * 0.6
  + SignLayout.signPadding signA * 2
  <= SignLayout.signWidth signA (Some (lit "a long answer")).
Proof.
  assert (Hf : 0 <= fontSize signA) by (simpl; lra).
  apply (proj1 (sign_fits_its_lines signA (Some (lit "a long answer")) Hf)).
  left. reflexivity.
Defined.

Local Close Scope R_scope.
